(** * Query mutation rules, the opportunistic job compiler and the commit
    match model of the Sourcegraph search core.

    Sources embedded here:
    - internal/search/job/jobutil/opportunistic.go (NewOpportunisticJob,
      BuildBasic, OnlySelect, ParametersToNodes, NodesToParameters);
    - a later revision of the same file (BuildBasic with the incoming query,
      UnorderedPatterns);
    - internal/search/result: CommitMatch (ResultCount, Limit, Key, Select,
      AppendMatches and the helpers displayRepoName, selectModifiedLines,
      modifiedLinesExist, selectCommitDiffKind, parseDiffString,
      splitDiffFiles, parseHunkHeader) and CommitDiffMatch (Path, Key,
      ResultCount, Limit, Select);
    - the streaming helpers toCommitDiffResults and toComputeResultStream
      of the compute command;
    - modelled from the spec, as their code is not in this source slice:
      the SELECT and LIMIT combinators over batches of matches. *)

From Stdlib Require Import String Ascii ZArith Lia.
From stdpp Require Import base gmap strings list fin_maps.

Set Warnings "-register-all".
Open Scope Z_scope.

(* ------------------------------------------------------------------ *)
(** ** Go string helpers *)

Module GoStrings.

(** [strings.Split(s, sep)] for a one-character separator. *)
Fixpoint Split (s : string) (sep : ascii) : list string :=
  match s with
  | EmptyString => [EmptyString]
  | String c rest =>
      if Ascii.eqb c sep then EmptyString :: Split rest sep
      else match Split rest sep with
           | h :: t => String c h :: t
           | [] => [String c EmptyString]
           end
  end.

(** [strings.Join(elems, sep)]. *)
Fixpoint Join (elems : list string) (sep : string) : string :=
  match elems with
  | [] => EmptyString
  | [e] => e
  | e :: rest => (e ++ sep ++ Join rest sep)%string
  end.

(** [strings.HasPrefix]. *)
Definition HasPrefix (s p : string) : bool := String.prefix p s.

(** [s[i:]] and [s[i:j]]. *)
Definition sliceFrom (s : string) (i : nat) : string :=
  substring i (String.length s - i) s.
Definition slice (s : string) (i j : nat) : string := substring i (j - i) s.

(** [s[i]]. *)
Definition byteAt (s : string) (i : nat) : ascii :=
  match String.get i s with Some c => c | None => "000"%char end.

(** A Go string is a sequence of bytes; a rune is a Unicode code point. *)
Definition byteVal (c : ascii) : Z := Z.of_nat (nat_of_ascii c).

(** [utf8.RuneError] (U+FFFD). *)
Definition RuneError : Z := 65533.

(** A UTF-8 continuation byte, 0x80 to 0xBF. *)
Definition isCont (c : ascii) : bool := ((128 <=? byteVal c) && (byteVal c <? 192))%bool.

(** [utf8.DecodeRuneInString]: the first rune of [s] and its width in
    bytes; (RuneError, 1) on an invalid or incomplete encoding, (RuneError,
    0) on the empty string. The accepted ranges of the second byte are
    those of the [first] and [acceptRanges] tables of package utf8. *)
Definition DecodeRuneInString (s : string) : Z * nat :=
  match s with
  | EmptyString => (RuneError, 0%nat)
  | String c0 s1 =>
      let b0 := byteVal c0 in
      if b0 <? 128 then (b0, 1%nat)
      else if b0 <? 194 then (RuneError, 1%nat)
      else if b0 <? 224 then
        match s1 with
        | String c1 _ =>
            if isCont c1 then ((b0 - 192) * 64 + (byteVal c1 - 128), 2%nat)
            else (RuneError, 1%nat)
        | EmptyString => (RuneError, 1%nat)
        end
      else if b0 <? 240 then
        let lo := if b0 =? 224 then 160 else 128 in
        let hi := if b0 =? 237 then 159 else 191 in
        match s1 with
        | String c1 (String c2 _) =>
            if ((lo <=? byteVal c1) && (byteVal c1 <=? hi) && isCont c2)%bool
            then ((b0 - 224) * 4096 + (byteVal c1 - 128) * 64 + (byteVal c2 - 128), 3%nat)
            else (RuneError, 1%nat)
        | _ => (RuneError, 1%nat)
        end
      else if b0 <? 245 then
        let lo := if b0 =? 240 then 144 else 128 in
        let hi := if b0 =? 244 then 143 else 191 in
        match s1 with
        | String c1 (String c2 (String c3 _)) =>
            if ((lo <=? byteVal c1) && (byteVal c1 <=? hi) && isCont c2 && isCont c3)%bool
            then ((b0 - 240) * 262144 + (byteVal c1 - 128) * 4096
                  + (byteVal c2 - 128) * 64 + (byteVal c3 - 128), 4%nat)
            else (RuneError, 1%nat)
        | _ => (RuneError, 1%nat)
        end
      else (RuneError, 1%nat)
  end.

(** [utf8.RuneStart]: the byte is not a continuation byte. *)
Definition RuneStart (c : ascii) : bool := negb (Z.land (byteVal c) 192 =? 128).

(** [utf8.DecodeLastRuneInString]: the last rune of [s] and its width.
    [start] is the last rune-start byte among the (at most three) bytes
    before the last one, or [lim - 1] (at least 0) when there is none. *)
Definition DecodeLastRuneInString (s : string) : Z * nat :=
  let e := String.length s in
  match e with
  | O => (RuneError, 0%nat)
  | S last =>
      let c := byteAt s last in
      if byteVal c <? 128 then (byteVal c, 1%nat)
      else
        let lim := (e - 4)%nat in
        let starts := List.filter (fun j => RuneStart (byteAt s j)) (seq lim (last - lim)) in
        let start := match List.last (map Some starts) None with
                     | Some j => j
                     | None => Nat.pred lim
                     end in
        let '(r, size) := DecodeRuneInString (substring start (e - start) s) in
        if Nat.eqb (start + size) e then (r, size) else (RuneError, 1%nat)
  end.

(** [unicode.IsSpace]: the Latin-1 spaces, then the other runes of the
    White_Space table. *)
Definition IsSpace (r : Z) : bool :=
  if r <=? 255 then
    ((r =? 9) || (r =? 10) || (r =? 11) || (r =? 12) || (r =? 13) || (r =? 32)
     || (r =? 133) || (r =? 160))%bool
  else
    ((r =? 5760) || ((8192 <=? r) && (r <=? 8202)) || (r =? 8232) || (r =? 8233)
     || (r =? 8239) || (r =? 8287) || (r =? 12288))%bool.

(** [strings.TrimLeftFunc(s, unicode.IsSpace)]: drop the leading space
    runes. [fuel] bounds the number of runes. *)
Fixpoint TrimLeftSpace (fuel : nat) (s : string) : string :=
  match fuel with
  | O => s
  | S f =>
      match s with
      | EmptyString => EmptyString
      | String _ _ =>
          let '(r, n) := DecodeRuneInString s in
          if IsSpace r then TrimLeftSpace f (sliceFrom s n) else s
      end
  end.

(** [lastIndexFunc(s[:i], unicode.IsSpace, false)]: the start of the last
    rune of [s[:i]] that is not a space, going backwards rune by rune. *)
Fixpoint lastNonSpace (fuel : nat) (s : string) (i : nat) : option nat :=
  match fuel, i with
  | O, _ | _, O => None
  | S f, S _ =>
      let '(r, size) := DecodeLastRuneInString (substring 0 i s) in
      if IsSpace r then lastNonSpace f s (i - size) else Some (i - size)%nat
  end.

(** [strings.TrimRightFunc(s, unicode.IsSpace)]. *)
Definition TrimRightSpace (s : string) : string :=
  match lastNonSpace (String.length s) s (String.length s) with
  | None => EmptyString
  | Some i =>
      let i := if 128 <=? byteVal (byteAt s i)
               then (i + snd (DecodeRuneInString (sliceFrom s i)))%nat
               else S i in
      substring 0 i s
  end.

(** [strings.TrimSpace]: its ASCII fast paths trim the same bytes as
    [TrimFunc(s, unicode.IsSpace)], which this is. *)
Definition TrimSpace (s : string) : string :=
  TrimRightSpace (TrimLeftSpace (String.length s) s).

End GoStrings.
Import GoStrings.

(* ------------------------------------------------------------------ *)
(** ** Query data model (package query) *)

Module Query.

Record Location := { Offset : Z; Line : Z; Column : Z }.
Record Range := { Start : Location; End : Location }.
Definition Location0 : Location := {| Offset := 0; Line := 0; Column := 0 |}.
(** [query.Range{}]. *)
Definition Range0 : Range := {| Start := Location0; End := Location0 |}.

(** The label bits of an annotation, kept as the set of bits that are on. *)
Inductive label := Literal | Regexp | Quoted | Standard | IsAlias | IsContent.
Definition labels := list label.

Record Annotation := { Labels : labels; ARange : Range }.
(** [query.Annotation{}]. *)
Definition Annotation0 : Annotation := {| Labels := []; ARange := Range0 |}.

(** [query.Parameter] (a reserved word in Rocq). *)
Record QParameter := {
  Field : string;
  Value : string;
  PNegated : bool;
  PAnnotation : Annotation
}.

Record Pattern := {
  PatValue : string;
  Negated : bool;
  PatAnnotation : Annotation
}.

Inductive OperatorKind := Or | And | Concat.

(** [query.Node]: a parameter, a pattern or an operator over nodes. *)
Inductive Node :=
| NParameter (p : QParameter)
| NPattern (p : Pattern)
| NOperator (kind : OperatorKind) (operands : list Node) (annotation : Annotation).

(** [query.Basic]; [Pattern] is a Go interface value and may be nil. *)
Record Basic := { Parameters : list QParameter; BPattern : option Node }.

Definition FieldSelect : string := "select".
Definition FieldRepo : string := "repo".
Definition FieldFile : string := "file".

(** [query.NewPattern]. *)
Definition NewPattern (v : string) (l : labels) (r : Range) : Pattern :=
  {| PatValue := v; Negated := false;
     PatAnnotation := {| Labels := l; ARange := r |} |}.

(** [query.Visit]: pre-order walk over the nodes and the operands of
    operators. *)
Fixpoint Visit {A} (f : Node -> list A) (n : Node) : list A :=
  match n with
  | NOperator _ ops _ =>
      f n ++ (fix go (l : list Node) : list A :=
                match l with [] => [] | o :: r => Visit f o ++ go r end) ops
  | _ => f n
  end.

(** [query.VisitPattern]: the callback arguments, in call order, for every
    pattern leaf. A nil node is not visited. *)
Definition VisitPattern (nodes : list (option Node))
  : list (string * bool * Annotation) :=
  flat_map (fun on =>
    match on with
    | None => []
    | Some n => Visit (fun m => match m with
                                | NPattern p => [(PatValue p, Negated p, PatAnnotation p)]
                                | _ => []
                                end) n
    end) nodes.

(** [query.StringHuman] for patterns: the printed value, negated terms
    as [(NOT v)], operators parenthesised with their keyword. Its quoting
    of patterns labelled [Quoted] or [Regexp], and of unbalanced literal
    patterns (printed in the content: form), is not reproduced: the
    theorems of this file hold for every printed string, or print patterns
    that carry none of these labels. *)
Fixpoint stringHumanNode (n : Node) : string :=
  match n with
  | NParameter p => (Field p ++ ":" ++ Value p)%string
  | NPattern p => if Negated p then ("(NOT " ++ PatValue p ++ ")")%string
                  else PatValue p
  | NOperator k ops _ =>
      let sep := match k with Or => " OR " | And => " AND " | Concat => " " end in
      ("(" ++ Join (map stringHumanNode ops) sep ++ ")")%string
  end.

Definition StringHuman (nodes : list (option Node)) : string :=
  String.concat "" (map (fun on => match on with
                                   | None => EmptyString
                                   | Some n => stringHumanNode n end) nodes).

(** A [query.Parameter] that is not negated and has no annotation. *)
Definition param (f v : string) : QParameter :=
  {| Field := f; Value := v; PNegated := false; PAnnotation := Annotation0 |}.

(** [Q.StringValue(field)]: the value of the last parameter with this field,
    "" when there is none. *)
Definition StringValue (b : Basic) (field : string) : string :=
  fold_left (fun acc p => if String.eqb (Field p) field then Value p else acc)
            (Parameters b) EmptyString.

End Query.
Import Query.

(* ------------------------------------------------------------------ *)
(** ** The regular expressions of the only-select rule (package regexp) *)

Module OnlyRegexp.

(** [\w]: ASCII letters, digits and underscore. *)
Definition isWordChar (c : ascii) : bool :=
  let n := nat_of_ascii c in
  ((Nat.leb 48 n && Nat.leb n 57) || (Nat.leb 65 n && Nat.leb n 90)
   || (Nat.leb 97 n && Nat.leb n 122) || Nat.eqb n 95)%bool.

Definition wordAt (s : string) (i : nat) : bool :=
  match String.get i s with Some c => isWordChar c | None => false end.

(** [\b] at position [i]. *)
Definition boundaryAt (s : string) (i : nat) : bool :=
  xorb (match i with O => false | S k => wordAt s k end) (wordAt s i).

(** The alternatives of [(repos?|files?|paths?|content|symbols?)] in the
    order leftmost-first matching tries them ([s?] is greedy). *)
Definition onlyWords : list string :=
  ["repos"; "repo"; "files"; "file"; "paths"; "path"; "content"; "symbols"; "symbol"].

(** A match of [\bonly (repos?|files?|paths?|content|symbols?)\b] starting
    at [i]: its end position. *)
Definition matchOnlyAt (s : string) (i : nat) : option nat :=
  if (boundaryAt s i && HasPrefix (sliceFrom s i) "only ")%bool then
    let k := (i + 5)%nat in
    let fix try (ws : list string) : option nat :=
      match ws with
      | [] => None
      | w :: rest =>
          if (HasPrefix (sliceFrom s k) w && boundaryAt s (k + String.length w))%bool
          then Some (k + String.length w)%nat else try rest
      end in
    try onlyWords
  else None.

Fixpoint findAllFrom (fuel : nat) (s : string) (i : nat) : list (nat * nat) :=
  match fuel with
  | O => []
  | S f =>
      if Nat.ltb (String.length s) i then []
      else match matchOnlyAt s i with
           | Some j => (i, j) :: findAllFrom f s j
           | None => findAllFrom f s (S i)
           end
  end.

(** [r.FindAllStringIndex(s, -1)]; the matches are never empty, so a new
    search starts where the previous match ended. *)
Definition FindAllStringIndex (s : string) : list (nat * nat) :=
  findAllFrom (S (String.length s)) s 0.

(** [r.FindString(s)]: the leftmost match, "" when there is none. *)
Definition FindString (s : string) : string :=
  match FindAllStringIndex s with
  | (i, j) :: _ => slice s i j
  | [] => EmptyString
  end.

(** One iteration of the loop of [Regexp.Split] over a match [m], on the
    state [(strings, beg, end)]. *)
Definition splitStep (s : string) (st : list string * nat * nat) (m : nat * nat)
  : list string * nat * nat :=
  let '(acc, beg, _) := st in
  let '(m0, m1) := m in
  let end_ := m0 in
  let acc' := if Nat.eqb m1 0 then acc else acc ++ [slice s beg end_] in
  (acc', m1, end_).

(** [Regexp.Split(s, -1)] over the match indexes [matches] of a
    non-empty expression. *)
Definition regexpSplit (s : string) (matches : list (nat * nat)) : list string :=
  if Nat.eqb (String.length s) 0 then [EmptyString]
  else
    let '(strs, beg, end_) := fold_left (splitStep s) matches ([], 0%nat, 0%nat) in
    if Nat.eqb end_ (String.length s) then strs else strs ++ [sliceFrom s beg].

Definition Split (s : string) : list string := regexpSplit s (FindAllStringIndex s).

(** [regexp.MustCompile(`repo|file|path|content|symbol`).FindString]. *)
Definition kindWords : list string := ["repo"; "file"; "path"; "content"; "symbol"].

Fixpoint findKindFrom (fuel : nat) (s : string) (i : nat) : string :=
  match fuel with
  | O => EmptyString
  | S f =>
      match List.find (fun w => HasPrefix (sliceFrom s i) w) kindWords with
      | Some w => w
      | None => findKindFrom f s (S i)
      end
  end.

Definition FindKind (s : string) : string := findKindFrom (S (String.length s)) s 0.

End OnlyRegexp.

(* ------------------------------------------------------------------ *)
(** ** Parameter helpers of package jobutil *)

Module Jobutil.

(** [ParametersToNodes]. *)
Definition ParametersToNodes (parameters : list QParameter) : list Node :=
  map NParameter parameters.

(** [query.MapField]: the callback replaces every parameter of the field;
    a nil result removes it. *)
Definition MapField (nodes : list Node) (field : string)
           (callback : string -> bool -> Annotation -> option Node) : list Node :=
  flat_map (fun n =>
    match n with
    | NParameter p =>
        if String.eqb (Field p) field
        then option_list (callback (Value p) (PNegated p) (PAnnotation p))
        else [n]
    | _ => [n]
    end) nodes.

(** [NodesToParameters]: the parameters of [query.ToBasicQuery(nodes)]. *)
Definition NodesToParameters (nodes : list Node) : list QParameter :=
  flat_map (fun n => match n with NParameter p => [p] | _ => [] end) nodes.

End Jobutil.
Import Jobutil.

(* ------------------------------------------------------------------ *)
(** ** Go panics *)

(** A Go call either returns or panics with a message. *)
Inductive outcome (A : Type) := Returns (a : A) | Panics (msg : string).
Arguments Returns {A} a.
Arguments Panics {A} msg.

Definition obind {A B} (m : outcome A) (f : A -> outcome B) : outcome B :=
  match m with Returns a => f a | Panics msg => Panics msg end.
Notation "x <-- m ;; k" := (obind m (fun x => k)) (at level 100, m at next level, right associativity).

Fixpoint mapM {A B} (f : A -> outcome B) (l : list A) : outcome (list B) :=
  match l with
  | [] => Returns []
  | a :: r => b <-- f a ;; bs <-- mapM f r ;; Returns (b :: bs)
  end.

(* ------------------------------------------------------------------ *)
(** ** Jobs and the per-clause compiler (package jobutil) *)

Module Compiler.

(** [time.Duration], in nanoseconds. *)
Definition Duration := Z.
(** [filter.SelectPath]. *)
Definition SelectPath := list string.

(** The job tree: backend leaves bound to one clause and the combinators.
    [SelectJob], [LimitJob] and [TimeoutJob] are what [NewSelectJob],
    [NewLimitJob] and [NewTimeoutJob] build (the TIMEOUT/LIMIT/SELECT nodes
    of the job printer). *)
Inductive Job :=
| Leaf (kind : string) (b : Basic)
| Parallel (children : list Job)
| OrJob (children : list Job)
| SelectJob (sp : SelectPath) (child : Job)
| LimitJob (limit : Z) (child : Job)
| TimeoutJob (timeout : Duration) (child : Job).

(** The collaborators of the compiler that this source slice calls but
    does not define. A Go error result is [inr]. *)
Class SearchEnv := {
  SearchInputs : Type;
  ToEvaluateJob : SearchInputs -> Basic -> Job + string;
  OptimizationPass : Job -> SearchInputs -> Basic -> Job + string;
  DefaultLimit : SearchInputs -> Z;
  (** [b.ToParseTree().MaxResults(defaultLimit)] *)
  MaxResults : Basic -> Z -> Z;
  (** [search.TimeoutDuration(b)] *)
  TimeoutDuration : Basic -> Duration;
  SelectPathFromString : string -> SelectPath;
  NewOrJob : list Job -> Job
}.

Section Compile.
Context `{E : SearchEnv}.

(** The body of the inner loop of [NewOpportunisticJob] for one generated
    clause [newBasic]. *)
Definition compileClause (inputs : SearchInputs) (newBasic : Basic) : outcome Job :=
  match ToEvaluateJob inputs newBasic with
  | inr _ => Panics "generated an invalid basic query D:"
  | inl child =>
      match OptimizationPass child inputs newBasic with
      | inr _ => Panics "optimization pass on generated query failed D:"
      | inl child =>
          (* Apply selectors *)
          let v := StringValue newBasic FieldSelect in
          let child := if String.eqb v "" then child
                       else SelectJob (SelectPathFromString v) child in
          (* Apply limits and Timeouts. *)
          let maxResults := MaxResults newBasic (DefaultLimit inputs) in
          let timeout := TimeoutDuration newBasic in
          Returns (TimeoutJob timeout (LimitJob maxResults child))
      end
  end.

(** The loops of [NewOpportunisticJob] over the plan and over the clauses
    [BuildBasic] generates from each plan clause. *)
Definition compilePlan (BuildBasic : Basic -> list Basic)
           (inputs : SearchInputs) (plan : list Basic) : outcome Job :=
  children <-- mapM (fun q => mapM (compileClause inputs) (BuildBasic q)) plan ;;
  Returns (NewOrJob (concat children)).

End Compile.
End Compiler.
Import Compiler.

(* ------------------------------------------------------------------ *)
(** ** opportunistic.go: the only-select rule *)

Module OpportunisticGo.

(** [OnlySelect]. *)
Definition OnlySelect (b : Basic) : option Basic :=
  let s := StringHuman [BPattern b] in
  let out := OnlyRegexp.Split s in
  if Nat.eqb (length out) 0 then None
  else
    (* remove any selects *)
    let parameters := MapField (ParametersToNodes (Parameters b)) FieldSelect
                               (fun _ _ _ => None) in
    let stripped := Join out "" in
    let parameters := parameters ++
      [NParameter {| Field := "select";
                     Value := OnlyRegexp.FindKind (OnlyRegexp.FindString s);
                     PNegated := false; PAnnotation := Annotation0 |}] in
    Some {| Parameters := NodesToParameters parameters;
            BPattern := Some (NPattern {| PatValue := TrimSpace stripped;
                                          Negated := false;
                                          PatAnnotation := Annotation0 |}) |}.

(** [BuildBasic]: only the clause produced by [OnlySelect]. *)
Definition BuildBasic (b : Basic) : list Basic :=
  match OnlySelect b with
  | Some g => [g]
  | None => []
  end.

(** [NewOpportunisticJob]. *)
Definition NewOpportunisticJob `{E : SearchEnv} (inputs : SearchInputs)
           (plan : list Basic) : outcome Job :=
  compilePlan BuildBasic inputs plan.

End OpportunisticGo.

(* ------------------------------------------------------------------ *)
(** ** The later revision: the unordered-terms rule *)

Module Part001.

(** [UnorderedPatterns]. *)
Definition UnorderedPatterns (b : Basic) : option Basic :=
  let andPatterns :=
    flat_map (fun '((value, negated, annotation) : string * bool * Annotation) =>
      if negated
      then (* append negated terms as-is. *)
        [NPattern {| PatValue := value; Negated := negated; PatAnnotation := annotation |}]
      else map (fun p => NPattern (NewPattern p [Literal] Range0)) (GoStrings.Split value " "%char))
      (VisitPattern [BPattern b]) in
  Some {| Parameters := Parameters b;
          BPattern := Some (NOperator And andPatterns Annotation0) |}.

(** [BuildBasic]: the incoming query, then the unordered-terms clause. *)
Definition BuildBasic (b : Basic) : list Basic :=
  let bs := [b] in
  match UnorderedPatterns b with
  | Some g => bs ++ [g]
  | None => bs
  end.

(** [NewOpportunisticJob] (unchanged in this revision). *)
Definition NewOpportunisticJob `{E : SearchEnv} (inputs : SearchInputs)
           (plan : list Basic) : outcome Job :=
  compilePlan BuildBasic inputs plan.

End Part001.

(* ------------------------------------------------------------------ *)
(** ** Matches (package result) *)

Module Result.

(** Go [int] is 64 bits wide; arithmetic wraps around. *)
Definition int64wrap (z : Z) : Z := ((z + 2 ^ 63) mod 2 ^ 64) - 2 ^ 63.

Record Signature := { AuthorName : string; Email : string; Date : Z }.
(** [gitdomain.Commit]. *)
Record Commit := { ID : string; Author : Signature; Message : string }.
(** [types.MinimalRepo]. *)
Record MinimalRepo := { RepoID : Z; Name : string }.

(** [MatchedString]: a text and the highlighted ranges in it. *)
Record MatchedString := { Content : string; MatchedRanges : list Range }.

(** [CommitMatch]; the two previews are pointers and may be nil. *)
Record CommitMatch := {
  CMCommit : Commit;
  CMRepo : MinimalRepo;
  Refs : list string;
  SourceRefs : list string;
  MessagePreview : option MatchedString;
  DiffPreview : option MatchedString;
  ModifiedFiles : list string
}.

(** The file header of a [diff.FileDiff]; its hunks are kept opaque. *)
Record FileDiff := { OrigName : string; NewName : string; Hunks : list string }.

(** [CommitDiffMatch] with its embedded [*diff.FileDiff]. *)
Record CommitDiffMatch := { CDCommit : Commit; CDRepo : MinimalRepo; CDFileDiff : FileDiff }.

Record RepoMatch := { RMName : string; RMID : Z }.

(** The match variants of this slice, as returned by [Select]. *)
Inductive Match :=
| MRepo (r : RepoMatch)
| MCommit (c : CommitMatch)
| MCommitDiff (d : CommitDiffMatch).

(** The type ranks of result/key.go used by these variants. *)
Inductive TypeRank := rankFileMatch | rankCommitMatch | rankDiffMatch | rankRepoMatch.

(** [PathStatus]; [Modified] is its zero value. *)
Inductive PathStatus := Modified | Added | Deleted.

(** [result.Key]. *)
Record Key := {
  KTypeRank : TypeRank;
  KRepo : string;
  AuthorDate : Z;
  KCommit : string;
  KPath : string;
  KPathStatus : PathStatus
}.

Definition setDiffPreview (cm : CommitMatch) (d : option MatchedString) : CommitMatch :=
  {| CMCommit := CMCommit cm; CMRepo := CMRepo cm; Refs := Refs cm;
     SourceRefs := SourceRefs cm; MessagePreview := MessagePreview cm;
     DiffPreview := d; ModifiedFiles := ModifiedFiles cm |}.

Definition setMessagePreview (cm : CommitMatch) (m : option MatchedString) : CommitMatch :=
  {| CMCommit := CMCommit cm; CMRepo := CMRepo cm; Refs := Refs cm;
     SourceRefs := SourceRefs cm; MessagePreview := m;
     DiffPreview := DiffPreview cm; ModifiedFiles := ModifiedFiles cm |}.

(** [(CommitMatch).ResultCount] (pointer receiver). *)
Definition CommitMatch_ResultCount (cm : CommitMatch) : Z :=
  let matchCount :=
    match DiffPreview cm, MessagePreview cm with
    | Some d, _ => Z.of_nat (length (MatchedRanges d))
    | None, Some m => Z.of_nat (length (MatchedRanges m))
    | None, None => 0
    end in
  if matchCount >? 0 then matchCount else 1.

(** The closure [limitMatchedString] of [(CommitMatch).Limit] (pointer receiver): the new
    budget and the trimmed string. Slicing [[:limit]] with a negative
    [limit] is a run-time panic. *)
Definition limitMatchedString (limit : Z) (ms : MatchedString)
  : outcome (Z * MatchedString) :=
  let n := Z.of_nat (length (MatchedRanges ms)) in
  if n =? 0 then Returns (int64wrap (limit - 1), ms)
  else if n >? limit then
    if limit <? 0 then Panics "runtime error: slice bounds out of range"
    else Returns (0, {| Content := Content ms;
                        MatchedRanges := firstn (Z.to_nat limit) (MatchedRanges ms) |})
  else Returns (int64wrap (limit - n), ms).

(** [(CommitMatch).Limit] (pointer receiver): the returned budget and the match after the
    in-place trimming. *)
Definition CommitMatch_Limit (limit : Z) (cm : CommitMatch) : outcome (Z * CommitMatch) :=
  match DiffPreview cm, MessagePreview cm with
  | Some d, _ =>
      r <-- limitMatchedString limit d ;; Returns (fst r, setDiffPreview cm (Some (snd r)))
  | None, Some m =>
      r <-- limitMatchedString limit m ;; Returns (fst r, setMessagePreview cm (Some (snd r)))
  | None, None => Panics "exactly one of DiffPreview or Message must be set"
  end.

(** [(CommitMatch).Key] (pointer receiver). *)
Definition CommitMatch_Key (cm : CommitMatch) : Key :=
  let typeRank := match DiffPreview cm with Some _ => rankDiffMatch | None => rankCommitMatch end in
  {| KTypeRank := typeRank; KRepo := Name (CMRepo cm);
     AuthorDate := Date (Author (CMCommit cm)); KCommit := ID (CMCommit cm);
     KPath := EmptyString; KPathStatus := Modified |}.

(** [(CommitDiffMatch).Path] (pointer receiver). *)
Definition CommitDiffMatch_Path (cm : CommitDiffMatch) : string :=
  let fd := CDFileDiff cm in
  if String.eqb (OrigName fd) "/dev/null" then NewName fd
  else if String.eqb (NewName fd) "/dev/null" then OrigName fd
  else OrigName fd.

(** [(CommitDiffMatch).Key] (pointer receiver). *)
Definition CommitDiffMatch_Key (cm : CommitDiffMatch) : Key :=
  let fd := CDFileDiff cm in
  let '(nonEmptyPath, pathStatus) :=
    if String.eqb (OrigName fd) "/dev/null" then (NewName fd, Added)
    else (EmptyString, Modified) in
  let '(nonEmptyPath, pathStatus) :=
    if String.eqb (NewName fd) "/dev/null" then (OrigName fd, Deleted)
    else (nonEmptyPath, pathStatus) in
  {| KTypeRank := rankDiffMatch; KRepo := Name (CDRepo cm);
     AuthorDate := Date (Author (CDCommit cm)); KCommit := ID (CDCommit cm);
     KPath := nonEmptyPath; KPathStatus := pathStatus |}.


(** [(CommitDiffMatch).Limit] (pointer receiver): returns 0 and leaves the match as it is. *)
Definition CommitDiffMatch_Limit (limit : Z) (cm : CommitDiffMatch)
  : outcome (Z * CommitDiffMatch) := Returns (0, cm).

(** [(CommitDiffMatch).Select] (pointer receiver): nil for every path. *)
Definition CommitDiffMatch_Select (path : SelectPath) (cm : CommitDiffMatch) : option Match :=
  None.

End Result.
Import Result.


(* ------------------------------------------------------------------ *)
(** ** Slices and aliasing of the mutation rules *)

Module Aliasing.

(** The backing arrays of parameter slices, by address. *)
Abbreviation heap := (gmap nat (list QParameter)).

(** A [query.Basic] as Go holds it: the [Parameters] slice is nil or points
    to a backing array shared by every copy of the struct; the pattern is
    an immutable value that neither rule writes. *)
Record BasicH := { ParametersH : option nat; PatternH : option Node }.

Definition deref (h : heap) (s : option nat) : list QParameter :=
  match s with None => [] | Some l => default [] (h !! l) end.

(** The clause value a [BasicH] denotes in heap [h]. *)
Definition view (h : heap) (b : BasicH) : Basic :=
  {| Parameters := deref h (ParametersH b); BPattern := PatternH b |}.

(** Allocation of a new backing array. *)
Definition alloc (h : heap) (v : list QParameter) : heap * nat :=
  let l := fresh (dom h) in (<[l := v]> h, l).

(** [UnorderedPatterns] in the heap: the result's [Parameters] is the
    caller's slice header [b.Parameters] (an alias); nothing is written. *)
Definition UnorderedPatternsH (b : BasicH) (h : heap) : heap * option BasicH :=
  match Part001.UnorderedPatterns (view h b) with
  | Some r => (h, Some {| ParametersH := ParametersH b; PatternH := BPattern r |})
  | None => (h, None)
  end.

(** [OnlySelect] in the heap: the parameters are read from the caller's
    slice, copied by [ParametersToNodes], and [NodesToParameters] builds a
    new backing array for the result. (The intermediate node slices are
    local and never escape, so they are not kept in the heap.) *)
Definition OnlySelectH (b : BasicH) (h : heap) : heap * option BasicH :=
  match OpportunisticGo.OnlySelect (view h b) with
  | Some r =>
      let '(h', l) := alloc h (Parameters r) in
      (h', Some {| ParametersH := Some l; PatternH := BPattern r |})
  | None => (h, None)
  end.

(** The caller's parameter slice is nil or allocated. *)
Definition wf_clause (h : heap) (b : BasicH) : Prop :=
  match ParametersH b with None => True | Some l => is_Some (h !! l) end.

End Aliasing.

(* ------------------------------------------------------------------ *)
(** ** Concrete inputs *)

Module Samples.

Definition pat (v : string) : option Node :=
  Some (NPattern {| PatValue := v; Negated := false; PatAnnotation := Annotation0 |}).

(** [repo:sourcegraph func parse only repo], the input of
    TestNewOpportunisticJob. *)
Definition selectTestClause : Basic :=
  {| Parameters := [param FieldRepo "sourcegraph"];
     BPattern := pat "func parse only repo" |}.

(** [func parse]: no only-phrase. *)
Definition plainClause : Basic := {| Parameters := []; BPattern := pat "func parse" |}.

(** Collaborators shaped like the job printed by TestNewOpportunisticJob:
    a PARALLEL of the repo pager, RepoSearch and ComputeExcludedRepos, a
    default limit of 500, a 20s timeout, and an OR that is the child itself
    when there is only one. *)
#[export] Instance demoEnv : SearchEnv := {
  SearchInputs := unit;
  ToEvaluateJob := fun _ b =>
    inl (Parallel [Leaf "REPOPAGER" b; Leaf "RepoSearch" b; Leaf "ComputeExcludedRepos" b]);
  OptimizationPass := fun j _ _ => inl j;
  DefaultLimit := fun _ => 500;
  MaxResults := fun _ d => d;
  TimeoutDuration := fun _ => 20000000000;
  SelectPathFromString := fun v => [v];
  NewOrJob := fun cs => match cs with [c] => c | _ => OrJob cs end
}.

(** The clause OnlySelect generates from [selectTestClause]. *)
Definition selectGenerated : Basic :=
  {| Parameters := [param FieldRepo "sourcegraph"; param FieldSelect "repo"];
     BPattern := pat "func parse" |}.

(** The job of TestNewOpportunisticJob: TIMEOUT 20s, LIMIT 500, SELECT repo. *)
Definition selectTestJob : Job :=
  TimeoutJob 20000000000 (LimitJob 500 (SelectJob ["repo"]
    (Parallel [Leaf "REPOPAGER" selectGenerated; Leaf "RepoSearch" selectGenerated;
               Leaf "ComputeExcludedRepos" selectGenerated]))).

Definition range (line : Z) : Range :=
  {| Start := {| Offset := 0; Line := line; Column := 0 |};
     End := {| Offset := 3; Line := line; Column := 3 |} |}.

Definition commit0 : Commit :=
  {| ID := "abc123"; Author := {| AuthorName := "dev"; Email := "dev@example.com"; Date := 1650000000 |};
     Message := "fix parser" |}.
Definition repo0 : MinimalRepo := {| RepoID := 1; Name := "github.com/sourcegraph/sourcegraph" |}.

(** A commit match with a diff preview highlighting 10 ranges. *)
Definition diffCommit10 : CommitMatch :=
  {| CMCommit := commit0; CMRepo := repo0; Refs := []; SourceRefs := [];
     MessagePreview := None;
     DiffPreview := Some {| Content := "diff"; MatchedRanges := map range [1;2;3;4;5;6;7;8;9;10] |};
     ModifiedFiles := [] |}.

(** Two file diffs of one commit, both modifying an existing file. *)
Definition diffFoo : CommitDiffMatch :=
  {| CDCommit := commit0; CDRepo := repo0;
     CDFileDiff := {| OrigName := "cmd/foo.go"; NewName := "cmd/foo.go"; Hunks := ["@@ -1,1 +1,1 @@"] |} |}.
Definition diffBar : CommitDiffMatch :=
  {| CDCommit := commit0; CDRepo := repo0;
     CDFileDiff := {| OrigName := "cmd/bar.go"; NewName := "cmd/bar.go"; Hunks := ["@@ -1,1 +1,1 @@"] |} |}.

(** A heap holding the parameter slice of [selectTestClause] at address 0. *)
Definition heap0 : Aliasing.heap := {[ 0%nat := [param FieldRepo "sourcegraph"] ]}.
Definition clauseH : Aliasing.BasicH :=
  {| Aliasing.ParametersH := Some 0%nat; Aliasing.PatternH := pat "func parse only repo" |}.

End Samples.
Import Samples.

(** The shape of one compiled clause: TIMEOUT around LIMIT around SELECT
    (present iff the clause has a non-empty select value) around the
    optimised evaluation job of the clause. *)
Definition nested_timeout_limit_select `{E : SearchEnv} (inputs : SearchInputs)
           (b : Basic) (c : Job) : Prop :=
  exists e0 e,
    ToEvaluateJob inputs b = inl e0 /\ OptimizationPass e0 inputs b = inl e /\
    c = TimeoutJob (TimeoutDuration b)
          (LimitJob (MaxResults b (DefaultLimit inputs))
             (if String.eqb (StringValue b FieldSelect) "" then e
              else SelectJob (SelectPathFromString (StringValue b FieldSelect)) e)).

(* ------------------------------------------------------------------ *)
(** ** More of package result: Select on commit matches, repository
    names and the diff parser *)

Module CommitSelect.

(** [filter.SelectPath.Root()] and the roots of package filter used here. *)
Definition Root (sp : SelectPath) : string :=
  match sp with [] => EmptyString | r :: _ => r end.
Definition Repository : string := "repo".
Definition CommitRoot : string := "commit".

(** The line separator of [strings.Split(s, "\n")]. *)
Definition newline : ascii := "010"%char.

Fixpoint selectModifiedLines_go (lines : list string) (hs : list Range) (prefix : string)
  : outcome (list Range) :=
  match hs with
  | [] => Returns []
  | h :: rest =>
      if Line (Start h) <? 0 then
        (* Skip negative line numbers. *)
        selectModifiedLines_go lines rest prefix
      else match nth_error lines (Z.to_nat (Line (Start h))) with
           | None => Panics "runtime error: index out of range"
           | Some l =>
               include <-- selectModifiedLines_go lines rest prefix ;;
               Returns (if HasPrefix l prefix then h :: include else include)
           end
  end.

(** [selectModifiedLines]; [lines[h.Start.Line]] past the end of [lines]
    is a run-time panic. *)
Definition selectModifiedLines (lines : list string) (highlights : list Range)
           (prefix : string) : outcome (list Range) :=
  match lines with
  | [] => Returns highlights
  | _ => selectModifiedLines_go lines highlights prefix
  end.

(** [modifiedLinesExist]. *)
Definition modifiedLinesExist (lines : list string) (prefix : string) : bool :=
  existsb (fun l => HasPrefix l prefix) lines.

(** [selectCommitDiffKind]; the highlight update is done in place on the
    diff preview of [c], so the returned match is [c] with its new ranges. *)
Definition selectCommitDiffKind (c : CommitMatch) (field : string) : outcome (option Match) :=
  match DiffPreview c with
  | None => Returns None (* Not a diff result. *)
  | Some diff =>
      let prefix := if String.eqb field "added" then "+" else EmptyString in
      let prefix := if String.eqb field "removed" then "-" else prefix in
      match MatchedRanges diff with
      | [] =>
          if modifiedLinesExist (GoStrings.Split (Content diff) newline) prefix
          then Returns (Some (MCommit c)) else Returns None
      | _ =>
          diffHighlights <-- selectModifiedLines (GoStrings.Split (Content diff) newline)
                                                 (MatchedRanges diff) prefix ;;
          match diffHighlights with
          | [] => Returns None (* No matching lines. *)
          | _ => Returns (Some (MCommit (setDiffPreview c
                   (Some {| Content := Content diff; MatchedRanges := diffHighlights |}))))
          end
      end
  end.

(** [CommitMatch.Select] (pointer receiver). *)
Definition CommitMatch_Select (path : SelectPath) (cm : CommitMatch) : outcome (option Match) :=
  if String.eqb (Root path) Repository then
    Returns (Some (MRepo {| RMName := Name (CMRepo cm); RMID := RepoID (CMRepo cm) |}))
  else if String.eqb (Root path) CommitRoot then
    let fields := tail path in
    match fields with
    | f0 :: rest =>
        if String.eqb f0 "diff" then
          match DiffPreview cm with
          | None => Returns None (* Not a diff result. *)
          | Some _ =>
              match rest with
              | [] => Returns (Some (MCommit cm))
              | [k] => selectCommitDiffKind cm k
              | _ => Returns None
              end
          end
        else Returns (Some (MCommit cm))
    | [] => Returns (Some (MCommit cm))
    end
  else Returns None.

(** [(CommitMatch).AppendMatches] (pointer receiver): the message
    highlights of [src] are appended to those of [cm]; diff previews are
    not merged. *)
Definition CommitMatch_AppendMatches (cm src : CommitMatch) : CommitMatch :=
  match MessagePreview cm, MessagePreview src with
  | Some m, Some sm =>
      setMessagePreview cm (Some {| Content := Content m;
                                    MatchedRanges := MatchedRanges m ++ MatchedRanges sm |})
  | _, _ => cm
  end.

(** [strings.Contains(s, c)] for a one-character [c]. *)
Fixpoint containsChar (c : ascii) (s : string) : bool :=
  match s with
  | EmptyString => false
  | String a rest => if Ascii.eqb a c then true else containsChar c rest
  end.

(** [displayRepoName]: remove hostname from repo path (reduce visual noise). *)
Definition displayRepoName (repoPath : string) : string :=
  let parts := GoStrings.Split repoPath "/"%char in
  let parts := if (Nat.leb 3 (length parts) && containsChar "."%char (nth 0 parts EmptyString))%bool
               then tail parts else parts in
  Join parts "/".

End CommitSelect.

Module DiffParser.

(** [strings.FieldsFunc(s, unicode.IsSpace)] going over the runes of [s]
    (as [for end, rune := range s] decodes them): the field in progress at
    the front of [s] and the fields after it. [fuel] bounds the number of
    runes. *)
Fixpoint FieldsAux (fuel : nat) (s : string) : string * list string :=
  match fuel with
  | O => (EmptyString, [])
  | S f =>
      match s with
      | EmptyString => (EmptyString, [])
      | String _ _ =>
          let '(r, n) := DecodeRuneInString s in
          let '(w, ws) := FieldsAux f (sliceFrom s n) in
          if IsSpace r then (EmptyString, if String.eqb w "" then ws else w :: ws)
          else ((substring 0 n s ++ w)%string, ws)
      end
  end.

(** [strings.Fields]: its ASCII fast path splits where [FieldsFunc(s,
    unicode.IsSpace)] does, which this is. *)
Definition Fields (s : string) : list string :=
  let '(w, ws) := FieldsAux (String.length s) s in if String.eqb w "" then ws else w :: ws.

Definition errInvalidDiff : string := "invalid diff format".

(** [splitDiffFiles]; a Go error result is [inr]. *)
Definition splitDiffFiles (fileLine : string) : (string * string) + string :=
  match Fields fileLine with
  | [a; b] => inl (a, b)
  | _ => inr errInvalidDiff
  end.

Definition isDigit (c : ascii) : bool :=
  (Nat.leb 48 (nat_of_ascii c) && Nat.leb (nat_of_ascii c) 57)%bool.

(** The longest prefix of ASCII digits, and the rest ([\d+] is greedy and
    is always followed by a non-digit in the header regexp). *)
Fixpoint spanDigits (s : string) : string * string :=
  match s with
  | String c rest =>
      if isDigit c then let '(d, r) := spanDigits rest in (String c d, r) else (EmptyString, s)
  | EmptyString => (EmptyString, EmptyString)
  end.

(** The last group of the header regexp, which stops at the first newline. *)
Fixpoint untilNewline (s : string) : string :=
  match s with
  | String c rest => if Ascii.eqb c "010"%char then EmptyString else String c (untilNewline rest)
  | EmptyString => EmptyString
  end.

Definition expect (lit s : string) : option string :=
  if String.prefix lit s then Some (sliceFrom s (String.length lit)) else None.

Definition digitsThen (s : string) : option (string * string) :=
  let '(d, r) := spanDigits s in if String.eqb d "" then None else Some (d, r).

(** [headerRegex] (see part_003, line 302) anchored at the
    start of [t]: the five submatches. *)
Definition headerAt (t : string) : option (string * string * string * string * string) :=
  match expect "@@ -" t with None => None | Some t =>
  match digitsThen t with None => None | Some (g1, t) =>
  match expect "," t with None => None | Some t =>
  match digitsThen t with None => None | Some (g2, t) =>
  match expect " +" t with None => None | Some t =>
  match digitsThen t with None => None | Some (g3, t) =>
  match expect "," t with None => None | Some t =>
  match digitsThen t with None => None | Some (g4, t) =>
  match expect " @@ " t with None => None | Some t =>
    Some (g1, g2, g3, g4, untilNewline t)
  end end end end end end end end end.

Fixpoint findHeader (fuel : nat) (s : string) : option (string * string * string * string * string) :=
  match headerAt s with
  | Some g => Some g
  | None =>
      match fuel, s with
      | S f, String _ rest => findHeader f rest
      | _, _ => None
      end
  end.

(** [headerRegex.FindStringSubmatch]: the leftmost match. *)
Definition FindStringSubmatch (s : string) : option (string * string * string * string * string) :=
  findHeader (String.length s) s.

Fixpoint digitsValue (s : string) (acc : Z) : Z :=
  match s with
  | String c rest => digitsValue rest (acc * 10 + Z.of_nat (nat_of_ascii c - 48))
  | EmptyString => acc
  end.

(** [strconv.Atoi] on a string of ASCII digits: out of the range of a
    64-bit [int] it fails with the text of its [*NumError] (the input
    quoted by [strconv.Quote], which leaves digits as they are). *)
Definition Atoi (s : string) : Z + string :=
  let v := digitsValue s 0 in
  let q := String "034"%char EmptyString in
  if v <=? 2 ^ 63 - 1 then inl v
  else inr ("strconv.Atoi: parsing " ++ q ++ s ++ q ++ ": value out of range")%string.

(** [parseHunkHeader]. *)
Definition parseHunkHeader (headerLine : string) : (Z * Z * Z * Z * string) + string :=
  match FindStringSubmatch headerLine with
  | None => inr errInvalidDiff
  | Some (g1, g2, g3, g4, g5) =>
      match Atoi g1, Atoi g2, Atoi g3, Atoi g4 with
      | inl oldStart, inl oldCount, inl newStart, inl newCount =>
          inl (oldStart, oldCount, newStart, newCount, g5)
      | inr e, _, _, _ | inl _, inr e, _, _ | inl _, inl _, inr e, _
      | inl _, inl _, inl _, inr e => inr e
      end
  end.

Record diffHunk := {
  oldStart : Z; newStart : Z; oldCount : Z; newCount : Z;
  header : string; hlines : list string
}.

Record diffFile := { oldFile : string; newFile : string; hunks : list diffHunk }.

Definition emptyHunk : diffHunk :=
  {| oldStart := 0; newStart := 0; oldCount := 0; newCount := 0; header := ""; hlines := [] |}.
Definition emptyDiff : diffFile := {| oldFile := ""; newFile := ""; hunks := [] |}.

(** The states [INIT], [IN_DIFF], [IN_HUNK] of the parser. *)
Inductive parseState := INIT | IN_DIFF | IN_HUNK.

(** Assign the parsed header fields of [h], keeping its lines. *)
Definition setHeader (h : diffHunk) (p : Z * Z * Z * Z * string) : diffHunk :=
  let '(os, oc, ns, nc, hd) := p in
  {| oldStart := os; oldCount := oc; newStart := ns; newCount := nc; header := hd;
     hlines := hlines h |}.

Definition setFiles (d : diffFile) (p : string * string) : diffFile :=
  {| oldFile := fst p; newFile := snd p; hunks := hunks d |}.

(** The loop of [parseDiffString] over the remaining lines, from the
    results so far, the current diff and hunk, and the state. *)
Fixpoint parseLines (lines : list string) (res : list diffFile) (currentDiff : diffFile)
         (currentHunk : diffHunk) (state : parseState) : list diffFile + string :=
  match lines with
  | [] => inl res
  | line :: rest =>
      match line with
      | EmptyString => parseLines rest res currentDiff currentHunk state
      | String c0 _ =>
          match state with
          | INIT =>
              match splitDiffFiles line with
              | inr e => inr e
              | inl p => parseLines rest res (setFiles currentDiff p) currentHunk IN_DIFF
              end
          | IN_DIFF =>
              match parseHunkHeader line with
              | inr e => inr e
              | inl p => parseLines rest res currentDiff (setHeader currentHunk p) IN_HUNK
              end
          | IN_HUNK =>
              if (Ascii.eqb c0 "-" || Ascii.eqb c0 "+" || Ascii.eqb c0 " ")%bool then
                parseLines rest res currentDiff
                  {| oldStart := oldStart currentHunk; newStart := newStart currentHunk;
                     oldCount := oldCount currentHunk; newCount := newCount currentHunk;
                     header := header currentHunk; hlines := hlines currentHunk ++ [line] |}
                  IN_HUNK
              else if Ascii.eqb c0 "@" then
                let currentDiff := {| oldFile := oldFile currentDiff; newFile := newFile currentDiff;
                                      hunks := hunks currentDiff ++ [currentHunk] |} in
                match parseHunkHeader line with
                | inr e => inr e
                | inl p => parseLines rest res currentDiff (setHeader emptyHunk p) IN_HUNK
                end
              else
                let res := res ++ [currentDiff] in
                match splitDiffFiles line with
                | inr e => inr e
                | inl p => parseLines rest res (setFiles currentDiff p) currentHunk IN_DIFF
                end
          end
      end
  end.

(** [parseDiffString]. *)
Definition parseDiffString (diff : string) : list diffFile + string :=
  parseLines (GoStrings.Split diff CommitSelect.newline) [] emptyDiff emptyHunk INIT.

End DiffParser.

(* ------------------------------------------------------------------ *)
(** ** Commit diff results for compute (package streaming) *)

Module ComputeStream.
Section Stream.

(** [diff.ParseMultiFileDiff] of the go-diff library (an error is [inr]). *)
Context (ParseMultiFileDiff : string -> list FileDiff + string).

(** [toCommitDiffResults]: every commit match with a diff preview becomes
    one commit-diff match per file diff; when the preview does not parse it
    is dropped. The log lines are not modelled. *)
Definition toCommitDiffResults (matches : list Match) : list Match :=
  flat_map (fun m =>
    match m with
    | MCommit v =>
        match DiffPreview v with
        | Some d =>
            match ParseMultiFileDiff (Content d) with
            | inr _ => [] (* honey badger mode *)
            | inl fileDiffs =>
                map (fun fd => MCommitDiff {| CDCommit := CMCommit v; CDRepo := CMRepo v;
                                              CDFileDiff := fd |}) fileDiffs
            end
        | None => [m]
        end
    | _ => [m]
    end) matches.

(** [cmd.Run(ctx, db, m)] of the compute command, and its result type. *)
Context (ComputeResult : Type) (Run : Match -> ComputeResult + string).

(** The loop of [toComputeResultStream]: the results passed to the
    callback [f], in order, and the returned error. *)
Fixpoint runAll (ms : list Match) : list ComputeResult * option string :=
  match ms with
  | [] => ([], None)
  | m :: rest =>
      match Run m with
      | inr err => ([], Some err)
      | inl result => let '(rs, e) := runAll rest in (result :: rs, e)
      end
  end.

(** [toComputeResultStream]. *)
Definition toComputeResultStream (matches : list Match) : list ComputeResult * option string :=
  runAll (toCommitDiffResults matches).

End Stream.

(** A commit match that still carries a diff preview. *)
Definition isDiffCommit (m : Match) : bool :=
  match m with
  | MCommit v => match DiffPreview v with Some _ => true | None => false end
  | _ => false
  end.

End ComputeStream.

(* ------------------------------------------------------------------ *)
(** ** The SELECT and LIMIT combinators over batches of matches *)

#[global] Instance TypeRank_eq_dec : EqDecision TypeRank.
Proof. solve_decision. Defined.
#[global] Instance PathStatus_eq_dec : EqDecision PathStatus.
Proof. solve_decision. Defined.
#[global] Instance Key_eq_dec : EqDecision Key.
Proof. solve_decision. Defined.

Module Combinators.
Section Jobs.

(** The methods of [RepoMatch] are not in this source slice; they are left
    abstract. *)
Context (RepoMatch_Select : SelectPath -> RepoMatch -> option Match)
        (RepoMatch_Key : RepoMatch -> Key)
        (RepoMatch_ResultCount : RepoMatch -> Z)
        (RepoMatch_Limit : Z -> RepoMatch -> Z * RepoMatch).

(** The methods of the [Match] interface on each variant. *)
Definition Match_Select (path : SelectPath) (m : Match) : outcome (option Match) :=
  match m with
  | MRepo r => Returns (RepoMatch_Select path r)
  | MCommit c => CommitSelect.CommitMatch_Select path c
  | MCommitDiff d => Returns (CommitDiffMatch_Select path d)
  end.

Definition Match_Key (m : Match) : Key :=
  match m with
  | MRepo r => RepoMatch_Key r
  | MCommit c => CommitMatch_Key c
  | MCommitDiff d => CommitDiffMatch_Key d
  end.


Definition Match_Limit (n : Z) (m : Match) : outcome (Z * Match) :=
  match m with
  | MRepo r => let '(k, r') := RepoMatch_Limit n r in Returns (k, MRepo r')
  | MCommit c => x <-- CommitMatch_Limit n c ;; Returns (fst x, MCommit (snd x))
  | MCommitDiff d => x <-- CommitDiffMatch_Limit n d ;; Returns (fst x, MCommitDiff (snd x))
  end.

(** Keep the first match of each key, in order. *)
Fixpoint coalesce (seen : list Key) (ms : list Match) : list Match :=
  match ms with
  | [] => []
  | m :: rest =>
      if existsb (fun k => bool_decide (k = Match_Key m)) seen then coalesce seen rest
      else m :: coalesce (Match_Key m :: seen) rest
  end.

(** Modelled from the spec: the SELECT combinator ([NewSelectJob]), whose
    code is not in this source slice. The spec: SELECT(path) "Applies
    Match.Select(path) to every match in every batch; drops matches that
    project to nothing; otherwise forwards the projected match. Must also
    coalesce duplicate projected matches with equal Key() when emitted in
    the same batch". Of the matches of one key the first is kept. *)
Definition selectBatch (path : SelectPath) (batch : list Match) : outcome (list Match) :=
  projected <-- mapM (Match_Select path) batch ;;
  Returns (coalesce [] (flat_map option_list projected)).

Definition selectStream (path : SelectPath) (batches : list (list Match))
  : outcome (list (list Match)) :=
  mapM (selectBatch path) batches.


(** Modelled from the spec: the LIMIT combinator ([NewLimitJob]), whose
    code is not in this source slice. The spec: LIMIT(n) "Maintains a
    shared ... remaining-budget counter seeded at n. Every batch of matches
    arriving from the child is passed through Limit on each match to trim
    it to the remaining budget; once the budget reaches zero, the wrapper
    cancels the child's context", and [Limit(n)] "returns the remaining
    budget". Batches arrive one after another (the concurrent updates of
    the counter are not modelled); a match that arrives when the budget is
    zero or below is not sent, nor is any later batch, as LIMIT(n) "never
    allows more than n total counted hits". The result is the remaining
    budget and the matches sent. *)
Fixpoint limitBatch (remaining : Z) (batch : list Match) : outcome (Z * list Match) :=
  match batch with
  | [] => Returns (remaining, [])
  | m :: rest =>
      if remaining <=? 0 then Returns (remaining, [])
      else x <-- Match_Limit remaining m ;;
           y <-- limitBatch (fst x) rest ;;
           Returns (fst y, snd x :: snd y)
  end.


End Jobs.
End Combinators.

(** The preview that [ResultCount] and [Limit] of a commit match work on:
    the diff preview when it is set, else the message preview. *)
Definition activePreview (cm : Result.CommitMatch) : option Result.MatchedString :=
  match Result.DiffPreview cm with
  | Some d => Some d
  | None => Result.MessagePreview cm
  end.

(** A commit match whose diff preview has an added and a context line,
    both highlighted. *)
Definition diffSelectSample : Result.CommitMatch :=
  {| Result.CMCommit := commit0; Result.CMRepo := repo0; Result.Refs := []; Result.SourceRefs := [];
     Result.MessagePreview := None;
     Result.DiffPreview := Some {| Result.Content := "+a" ++ String CommitSelect.newline " b";
                                   Result.MatchedRanges := [range 0; range 1] |};
     Result.ModifiedFiles := [] |}.

(** Valid UTF-8 without white space: every rune decodes without error
    and is not a space rune. [fuel] bounds the number of runes. *)
Fixpoint spaceFreeRunes (fuel : nat) (s : string) : bool :=
  match fuel with
  | O => String.eqb s ""
  | S f =>
      match s with
      | EmptyString => true
      | String _ _ =>
          let '(r, n) := DecodeRuneInString s in
          (negb ((r =? RuneError) && Nat.eqb n 1) && negb (IsSpace r)
           && spaceFreeRunes f (sliceFrom s n))%bool
      end
  end.

Definition isWord (s : string) : bool := spaceFreeRunes (String.length s) s.

(** Non-empty strings of ASCII digits. *)
Fixpoint allDigits (s : string) : bool :=
  match s with
  | EmptyString => true
  | String c r => (DiffParser.isDigit c && allDigits r)%bool
  end.

(** A line that [parseDiffString] accepts inside a hunk without starting a
    new file: empty, a [-], [+] or context line, or a hunk header. *)
Definition hunkBodyLine (l : string) : Prop :=
  match l with
  | EmptyString => True
  | String c _ => c = "-"%char \/ c = "+"%char \/ c = " "%char \/
                  (c = "@"%char /\ exists hh, DiffParser.parseHunkHeader l = inl hh)
  end.

(** A [ParseMultiFileDiff] that reads every preview as one modification
    of cmd/foo.go. *)
Definition parseAsFoo (_ : string) : list Result.FileDiff + string :=
  inl [Result.CDFileDiff diffFoo].

(** What C9 asks of a mutation rule run in heap [h] on clause [b], and
    then once more on the same clause: no cell of [h] is changed (in
    particular the clause's own parameters), the result denotes the value
    the pure rule computes, and the second call returns the same clause
    value as the first. *)
Definition rule_respects (rule : Aliasing.BasicH -> Aliasing.heap -> Aliasing.heap * option Aliasing.BasicH)
           (pure : Basic -> option Basic) (h : Aliasing.heap) (b : Aliasing.BasicH) : Prop :=
  let '(h1, r1) := rule b h in
  let '(h2, r2) := rule b h1 in
  (forall l v, h !! l = Some v -> h1 !! l = Some v) /\
  Aliasing.view h1 b = Aliasing.view h b /\
  option_map (Aliasing.view h1) r1 = pure (Aliasing.view h b) /\
  option_map (Aliasing.view h2) r2 = option_map (Aliasing.view h1) r1.

(* ================================================================== *)
(** * Theorems *)

(** ** The compiler *)

Lemma mapM_Forall2 {A B} (f : A -> outcome B) (l : list A) (bs : list B) :
  mapM f l = Returns bs -> Forall2 (fun a b => f a = Returns b) l bs.
Proof.
  revert bs; induction l as [|a l IH]; intros bs H; simpl in H.
  - injection H as <-. constructor.
  - destruct (f a) as [b|m] eqn:Ef; [|discriminate]. simpl in H.
    destruct (mapM f l) as [bs'|m] eqn:Er; [|discriminate]. simpl in H.
    injection H as <-. constructor; auto.
Qed.

Lemma mapM_mapM_concat {A B} (g : A -> outcome B) (BB : A -> list A)
      (plan : list A) (css : list (list B)) :
  mapM (fun q => mapM g (BB q)) plan = Returns css ->
  Forall2 (fun a b => g a = Returns b) (flat_map BB plan) (concat css).
Proof.
  intros H. apply mapM_Forall2 in H. induction H as [|q cs plan css Hq _ IH]; simpl.
  - constructor.
  - apply Forall2_app; [apply mapM_Forall2; exact Hq | exact IH].
Qed.

Lemma compileClause_shape `{E : SearchEnv} (inputs : SearchInputs) (b : Basic) (c : Job) :
  compileClause inputs b = Returns c -> nested_timeout_limit_select inputs b c.
Proof.
  unfold compileClause, nested_timeout_limit_select.
  destruct (ToEvaluateJob inputs b) as [e0|] eqn:E0; [|discriminate].
  destruct (OptimizationPass e0 inputs b) as [e|] eqn:E1; [|discriminate].
  intros H. injection H as <-. exists e0, e. auto.
Qed.

Lemma compilePlan_shape `{E : SearchEnv} (BB : Basic -> list Basic)
      (inputs : SearchInputs) (plan : list Basic) (j : Job) :
  compilePlan BB inputs plan = Returns j ->
  exists children, j = NewOrJob children /\
    Forall2 (nested_timeout_limit_select inputs) (flat_map BB plan) children.
Proof.
  unfold compilePlan.
  destruct (mapM _ plan) as [css|m] eqn:Hm; simpl; [|discriminate].
  intros H. injection H as <-. exists (concat css). split; [reflexivity|].
  eapply Forall2_impl; [apply mapM_mapM_concat; exact Hm|].
  intros b c. apply compileClause_shape.
Qed.

(** C1: in both revisions of [NewOpportunisticJob], every clause produced
    by [BuildBasic] is compiled to TIMEOUT(LIMIT(SELECT?(job))), SELECT
    present exactly when the clause carries a select value, and all these
    wrapped jobs, in order, are combined by one [NewOrJob] call. *)
Theorem opportunistic_job_nesting `{E : SearchEnv} (inputs : SearchInputs) :
  (forall plan j, OpportunisticGo.NewOpportunisticJob inputs plan = Returns j ->
     exists children, j = NewOrJob children /\
       Forall2 (nested_timeout_limit_select inputs)
               (flat_map OpportunisticGo.BuildBasic plan) children) /\
  (forall plan j, Part001.NewOpportunisticJob inputs plan = Returns j ->
     exists children, j = NewOrJob children /\
       Forall2 (nested_timeout_limit_select inputs)
               (flat_map Part001.BuildBasic plan) children).
Proof.
  split; intros plan j; apply compilePlan_shape.
Qed.

(** Witness of C1 on the input of TestNewOpportunisticJob. *)
Lemma opportunistic_job_nesting_witness :
  OpportunisticGo.NewOpportunisticJob (E := demoEnv) tt [selectTestClause] = Returns selectTestJob /\
  exists children, selectTestJob = NewOrJob children /\
    Forall2 (nested_timeout_limit_select tt)
            (flat_map OpportunisticGo.BuildBasic [selectTestClause]) children.
Proof.
  split.
  - vm_compute. reflexivity.
  - apply (proj1 (opportunistic_job_nesting (E := demoEnv) tt)). vm_compute. reflexivity.
Defined.

(** ** Which clauses are compiled *)

Lemma OnlySelect_last_select (b g : Basic) :
  OpportunisticGo.OnlySelect b = Some g ->
  exists v, last (Parameters g) = Some (param FieldSelect v).
Proof.
  unfold OpportunisticGo.OnlySelect.
  destruct (Nat.eqb _ 0); [discriminate|].
  intros H. injection H as <-. simpl.
  unfold NodesToParameters. rewrite flat_map_app. simpl.
  eexists. apply last_snoc.
Qed.

(** C2 (counterexample): in opportunistic.go, [BuildBasic] of the test
    clause [repo:sourcegraph func parse only repo] does not contain that
    clause. *)
Lemma build_basic_omits_incoming :
  ~ In selectTestClause (OpportunisticGo.BuildBasic selectTestClause).
Proof.
  vm_compute. intros [H|H]; [discriminate H | exact H].
Qed.

(** C2 (amended): the later revision's [BuildBasic] compiles the incoming
    clause first and then the unordered-terms clause; the opportunistic.go
    revision compiles only the clause [OnlySelect] produces, whose last
    parameter is a select parameter. *)
Theorem build_basic_clauses (b : Basic) :
  Part001.BuildBasic b = b :: option_list (Part001.UnorderedPatterns b) /\
  In b (Part001.BuildBasic b) /\
  (forall g, In g (OpportunisticGo.BuildBasic b) ->
     OpportunisticGo.OnlySelect b = Some g /\
     exists v, last (Parameters g) = Some (param FieldSelect v)).
Proof.
  unfold Part001.BuildBasic, OpportunisticGo.BuildBasic.
  split; [|split].
  - destruct (Part001.UnorderedPatterns b); reflexivity.
  - destruct (Part001.UnorderedPatterns b); simpl; auto.
  - destruct (OpportunisticGo.OnlySelect b) as [g'|] eqn:Hg; simpl; [|tauto].
    intros g [<-|[]]. split; [reflexivity|]. eapply OnlySelect_last_select; exact Hg.
Qed.

(** ** Limit on commit matches *)

(** C3: a commit match whose diff preview highlights 10 ranges keeps the
    first 4 of them under [Limit(4)], and the returned budget is 0. *)
Theorem commit_diff_limit_four (cm : CommitMatch) (ms : MatchedString) :
  DiffPreview cm = Some ms -> length (MatchedRanges ms) = 10%nat ->
  exists ms',
    CommitMatch_Limit 4 cm = Returns (0, setDiffPreview cm (Some ms')) /\
    length (MatchedRanges ms') = 4%nat /\
    MatchedRanges ms' = firstn 4 (MatchedRanges ms).
Proof.
  intros Hd Hl. unfold CommitMatch_Limit. rewrite Hd.
  unfold limitMatchedString. rewrite Hl. simpl.
  eexists. split; [reflexivity|]. simpl. split; [|reflexivity].
  rewrite length_firstn, Hl. reflexivity.
Qed.

Lemma commit_diff_limit_four_witness :
  DiffPreview diffCommit10 = Some {| Content := "diff"; MatchedRanges := map range [1;2;3;4;5;6;7;8;9;10] |} /\
  length (MatchedRanges {| Content := "diff"; MatchedRanges := map range [1;2;3;4;5;6;7;8;9;10] |}) = 10%nat /\
  exists ms',
    CommitMatch_Limit 4 diffCommit10 = Returns (0, setDiffPreview diffCommit10 (Some ms')) /\
    length (MatchedRanges ms') = 4%nat /\
    MatchedRanges ms' = firstn 4 (map range [1;2;3;4;5;6;7;8;9;10]).
Proof.
  split; [reflexivity|]. split; [reflexivity|].
  apply (commit_diff_limit_four diffCommit10
           {| Content := "diff"; MatchedRanges := map range [1;2;3;4;5;6;7;8;9;10] |});
    reflexivity.
Defined.

(** ** Keys *)

(** C4 (code bug): two file diffs of one commit that both modify an
    existing file are distinct matches with distinct [Path()], yet their
    [Key()] values are equal: [Key] leaves the path empty for a
    modification. *)
Theorem commit_diff_keys_collide :
  diffFoo <> diffBar /\
  CommitDiffMatch_Path diffFoo = "cmd/foo.go" /\
  CommitDiffMatch_Path diffBar = "cmd/bar.go" /\
  CommitDiffMatch_Key diffFoo = CommitDiffMatch_Key diffBar /\
  KPath (CommitDiffMatch_Key diffFoo) = "".
Proof.
  split; [|split; [|split; [|split]]]; try reflexivity.
  intros H. inversion H.
Qed.

(** ** The unordered-terms rule *)

(** C5: [UnorderedPatterns] keeps the parameters and returns the AND of the
    negated pattern terms, verbatim, and one literal pattern per
    space-separated fragment of each non-negated term; nothing else. *)
Theorem unordered_terms_shape (b : Basic) :
  let visited := VisitPattern [BPattern b] in
  exists ops,
    Part001.UnorderedPatterns b =
      Some {| Parameters := Parameters b; BPattern := Some (NOperator And ops Annotation0) |} /\
    (forall o, In o ops <->
       (exists v a, In (v, true, a) visited /\
          o = NPattern {| PatValue := v; Negated := true; PatAnnotation := a |}) \/
       (exists v a p, In (v, false, a) visited /\ In p (GoStrings.Split v " "%char) /\
          o = NPattern (NewPattern p [Literal] Range0))) /\
    length ops = list_sum (map (fun '((v, n, _) : string * bool * Annotation) =>
                                  if n then 1%nat else length (GoStrings.Split v " "%char))
                               visited).
Proof.
  cbv zeta. eexists. split; [reflexivity|]. split.
  - intros o. rewrite in_flat_map. split.
    + intros [[[v n] a] [Hin Ho]]. destruct n.
      * left. exists v, a. destruct Ho as [<-|[]]. auto.
      * right. apply in_map_iff in Ho. destruct Ho as [p [<- Hp]]. exists v, a, p. auto.
    + intros [[v [a [Hin ->]]]|[v [a [p [Hin [Hp ->]]]]]].
      * exists (v, true, a). simpl. auto.
      * exists (v, false, a). split; [exact Hin|]. apply in_map_iff. eauto.
  - generalize (VisitPattern [BPattern b]) as l.
    induction l as [|[[v n] a] r IH]; [reflexivity|].
    simpl. rewrite length_app, IH. destruct n; simpl; [reflexivity|].
    rewrite length_map. reflexivity.
Qed.

(** ** The precondition of the only-select rule *)

Lemma substring_past (s : string) (i k : nat) :
  (String.length s <= i)%nat -> substring i k s = EmptyString.
Proof.
  revert i; induction s as [|c s IH]; intros i Hi.
  - destruct i, k; reflexivity.
  - destruct i as [|i]; simpl in Hi; [lia|]. simpl. apply IH. lia.
Qed.

Lemma matchOnlyAt_lt (s : string) (i j : nat) :
  OnlyRegexp.matchOnlyAt s i = Some j -> (i < String.length s)%nat.
Proof.
  unfold OnlyRegexp.matchOnlyAt. intros H.
  destruct (Nat.lt_ge_cases i (String.length s)) as [Hlt|Hge]; [exact Hlt|].
  unfold sliceFrom in H. rewrite (substring_past s i) in H by exact Hge.
  rewrite andb_false_r in H. discriminate.
Qed.

Lemma findAllFrom_lt (fuel : nat) (s : string) (i : nat) (p : nat * nat) :
  In p (OnlyRegexp.findAllFrom fuel s i) -> (fst p < String.length s)%nat.
Proof.
  revert i; induction fuel as [|fuel IH]; intros i H; simpl in H; [contradiction|].
  destruct (Nat.ltb (String.length s) i); [contradiction|].
  destruct (OnlyRegexp.matchOnlyAt s i) as [j|] eqn:Hm.
  - destruct H as [<-|H]; [eapply matchOnlyAt_lt; exact Hm | eapply IH; exact H].
  - eapply IH; exact H.
Qed.

Lemma splitStep_end_lt (s : string) (ms : list (nat * nat)) (st : list string * nat * nat) :
  (forall p, In p ms -> (fst p < String.length s)%nat) ->
  (snd st < String.length s)%nat ->
  (snd (fold_left (OnlyRegexp.splitStep s) ms st) < String.length s)%nat.
Proof.
  revert st; induction ms as [|[m0 m1] ms IH]; intros [[acc beg] e] Hms He; simpl; [exact He|].
  apply IH.
  - intros p Hp. apply Hms. right. exact Hp.
  - simpl. apply (Hms (m0, m1)). left. reflexivity.
Qed.

(** [Regexp.Split(s, -1)] never returns an empty slice when every match
    starts inside [s]. *)
Lemma regexpSplit_nonempty (s : string) (ms : list (nat * nat)) :
  (forall p, In p ms -> (fst p < String.length s)%nat) ->
  OnlyRegexp.regexpSplit s ms <> [].
Proof.
  intros Hms. unfold OnlyRegexp.regexpSplit.
  destruct (Nat.eqb (String.length s) 0) eqn:Hz; [discriminate|].
  apply Nat.eqb_neq in Hz.
  pose proof (splitStep_end_lt s ms ([], 0%nat, 0%nat) Hms) as Hlt.
  destruct (fold_left (OnlyRegexp.splitStep s) ms ([], 0%nat, 0%nat)) as [[strs beg] e].
  simpl in Hlt. assert (He : Nat.eqb e (String.length s) = false) by (apply Nat.eqb_neq; lia).
  rewrite He. destruct strs; discriminate.
Qed.

Lemma OnlySelect_never_nil (b : Basic) : OpportunisticGo.OnlySelect b <> None.
Proof.
  unfold OpportunisticGo.OnlySelect, OnlyRegexp.Split.
  set (s := StringHuman [BPattern b]).
  assert (Hne : OnlyRegexp.regexpSplit s (OnlyRegexp.FindAllStringIndex s) <> []).
  { apply regexpSplit_nonempty. intros p Hp. eapply findAllFrom_lt. exact Hp. }
  destruct (OnlyRegexp.regexpSplit s (OnlyRegexp.FindAllStringIndex s)); [congruence|].
  simpl. discriminate.
Qed.

(** C6 (code bug): [OnlySelect] returns a clause for every input, also
    for [func parse], which has no only-phrase (the regexp finds no match);
    [BuildBasic] then yields a clause with an empty select and the compiler
    emits a job for it. *)
Theorem only_select_fires_without_phrase :
  (forall b, OpportunisticGo.OnlySelect b <> None) /\
  OnlyRegexp.FindAllStringIndex (StringHuman [BPattern plainClause]) = [] /\
  OpportunisticGo.BuildBasic plainClause =
    [{| Parameters := [param FieldSelect ""]; BPattern := pat "func parse" |}] /\
  OpportunisticGo.NewOpportunisticJob (E := demoEnv) tt [plainClause] =
    Returns (TimeoutJob 20000000000 (LimitJob 500
      (Parallel (map (fun k => Leaf k {| Parameters := [param FieldSelect ""];
                                         BPattern := pat "func parse" |})
                     ["REPOPAGER"; "RepoSearch"; "ComputeExcludedRepos"])))).
Proof.
  split; [exact OnlySelect_never_nil|].
  split; [|split]; vm_compute; reflexivity.
Qed.

(** ** Limit on matches without countable content *)

(** C7 (counterexample): [Limit] on a commit-diff match returns normally. *)
Lemma commit_diff_limit_returns :
  ~ (exists msg, CommitDiffMatch_Limit 4 diffFoo = Panics msg).
Proof.
  intros [msg H]. discriminate H.
Qed.

(** C7 (amended): [Limit] panics on a commit match with neither preview;
    on a commit-diff match it returns 0 and leaves the match unchanged. *)
Theorem limit_without_countable_content :
  (forall (cm : CommitMatch) (n : Z), DiffPreview cm = None -> MessagePreview cm = None ->
     CommitMatch_Limit n cm = Panics "exactly one of DiffPreview or Message must be set") /\
  (forall (d : CommitDiffMatch) (n : Z), CommitDiffMatch_Limit n d = Returns (0, d)).
Proof.
  split.
  - intros cm n Hd Hm. unfold CommitMatch_Limit. rewrite Hd, Hm. reflexivity.
  - reflexivity.
Qed.

(** ** Commit-diff matches *)

Lemma obind_returns {A} (m : outcome A) : obind m Returns = m.
Proof. destruct m; reflexivity. Qed.

Lemma mapM_app {A B} (g : A -> outcome B) (l1 l2 : list A) :
  mapM g (l1 ++ l2) = (bs1 <-- mapM g l1 ;; bs2 <-- mapM g l2 ;; Returns (bs1 ++ bs2)).
Proof.
  induction l1 as [|a l1 IH]; simpl.
  - rewrite obind_returns. reflexivity.
  - rewrite IH. destruct (g a); [|reflexivity]. simpl.
    destruct (mapM g l1); [|reflexivity]. simpl.
    destruct (mapM g l2); reflexivity.
Qed.


(** Passed through LIMIT with a positive budget, a commit-diff match is
    sent as it is, and its [Limit] leaves a budget of 0: no later match
    of the batch is sent. *)
Lemma limitBatch_commit_diff_budget (RL : Z -> RepoMatch -> Z * RepoMatch)
      (budget : Z) (d : CommitDiffMatch) (rest : list Match) :
  0 < budget ->
  Combinators.limitBatch RL budget (MCommitDiff d :: rest) = Returns (0, [MCommitDiff d]).
Proof.
  intros Hb. simpl. replace (budget <=? 0) with false by (symmetry; apply Z.leb_gt; lia).
  simpl. destruct rest; reflexivity.
Qed.


(** ** Mutation rules and the caller's clause *)

Lemma view_alloc (h : Aliasing.heap) (b : Aliasing.BasicH) (v : list QParameter) :
  Aliasing.wf_clause h b ->
  Aliasing.view (fst (Aliasing.alloc h v)) b = Aliasing.view h b.
Proof.
  unfold Aliasing.wf_clause, Aliasing.view, Aliasing.alloc, Aliasing.deref. simpl.
  destruct (Aliasing.ParametersH b) as [l|]; [|reflexivity].
  intros [w Hw]. rewrite lookup_insert_ne; [reflexivity|].
  intros Heq. apply (is_fresh (dom h)). rewrite Heq. apply elem_of_dom. eauto.
Qed.

Lemma alloc_frame (h : Aliasing.heap) (v : list QParameter) (l : nat) (w : list QParameter) :
  h !! l = Some w -> fst (Aliasing.alloc h v) !! l = Some w.
Proof.
  intros Hl. unfold Aliasing.alloc. simpl. rewrite lookup_insert_ne; [exact Hl|].
  intros Heq. apply (is_fresh (dom h)). rewrite Heq. apply elem_of_dom. eauto.
Qed.

Lemma view_allocated (h : Aliasing.heap) (r : Basic) :
  Aliasing.view (fst (Aliasing.alloc h (Parameters r)))
    {| Aliasing.ParametersH := Some (snd (Aliasing.alloc h (Parameters r)));
       Aliasing.PatternH := BPattern r |} = r.
Proof.
  unfold Aliasing.view, Aliasing.alloc, Aliasing.deref. simpl.
  rewrite lookup_insert_eq. destruct r; reflexivity.
Qed.

(** C9: run on a clause whose parameter slice is allocated, each rule
    (unordered-terms, only-select) writes no existing cell, so the input
    clause keeps its parameters and pattern; its result denotes the pure
    rule's clause; and a second call on the same clause returns the same
    clause value. *)
Theorem mutation_rules_pure (h : Aliasing.heap) (b : Aliasing.BasicH) :
  Aliasing.wf_clause h b ->
  rule_respects Aliasing.UnorderedPatternsH Part001.UnorderedPatterns h b /\
  rule_respects Aliasing.OnlySelectH OpportunisticGo.OnlySelect h b.
Proof.
  intros Hwf. split.
  - unfold rule_respects, Aliasing.UnorderedPatternsH. simpl.
    split; [auto|]. split; [reflexivity|]. split; reflexivity.
  - unfold rule_respects, Aliasing.OnlySelectH.
    destruct (OpportunisticGo.OnlySelect (Aliasing.view h b)) as [r|] eqn:Hr.
    + destruct (Aliasing.alloc h (Parameters r)) as [h1 l1] eqn:Ha.
      assert (Hv1 : Aliasing.view h1 b = Aliasing.view h b).
      { change h1 with (fst (h1, l1)). rewrite <- Ha. apply view_alloc. exact Hwf. }
      rewrite Hv1, Hr.
      destruct (Aliasing.alloc h1 (Parameters r)) as [h2 l2] eqn:Ha2.
      assert (E1 : Aliasing.view h1 {| Aliasing.ParametersH := Some l1;
                                       Aliasing.PatternH := BPattern r |} = r).
      { change h1 with (fst (h1, l1)) at 1. change l1 with (snd (h1, l1)) at 2.
        rewrite <- Ha. apply view_allocated. }
      assert (E2 : Aliasing.view h2 {| Aliasing.ParametersH := Some l2;
                                       Aliasing.PatternH := BPattern r |} = r).
      { change h2 with (fst (h2, l2)) at 1. change l2 with (snd (h2, l2)) at 2.
        rewrite <- Ha2. apply view_allocated. }
      simpl. rewrite E1, E2. split; [|split; [reflexivity|split; reflexivity]].
      intros l v Hl. change h1 with (fst (h1, l1)). rewrite <- Ha. apply alloc_frame. exact Hl.
    + rewrite Hr. simpl. split; [auto|]. split; [reflexivity|]. split; reflexivity.
Qed.

Lemma mutation_rules_pure_witness :
  Aliasing.wf_clause heap0 clauseH /\
  rule_respects Aliasing.UnorderedPatternsH Part001.UnorderedPatterns heap0 clauseH /\
  rule_respects Aliasing.OnlySelectH OpportunisticGo.OnlySelect heap0 clauseH.
Proof.
  assert (Hwf : Aliasing.wf_clause heap0 clauseH).
  { unfold Aliasing.wf_clause. simpl. exists [param FieldRepo "sourcegraph"]. vm_compute. reflexivity. }
  split; [exact Hwf|]. apply mutation_rules_pure. exact Hwf.
Defined.

(* ------------------------------------------------------------------ *)
(** ** Further properties of the commit match model *)

Lemma int64wrap_small (z : Z) : - 2 ^ 63 <= z < 2 ^ 63 -> int64wrap z = z.
Proof.
  intros H. unfold int64wrap.
  rewrite Z.mod_small by (change (2 ^ 64) with (2 ^ 63 + 2 ^ 63); lia). lia.
Qed.

Lemma firstn_length_le_id {A} (l : list A) (k : nat) :
  (length l <= k)%nat -> firstn k l = l.
Proof. intros H. apply firstn_all2. exact H. Qed.

(** Budget accounting of [(CommitMatch).Limit]: for a limit between 1 and
    the largest Go [int], on a match with a preview, [Limit] returns; the
    returned budget is non-negative and adds up with the new
    [ResultCount] to the limit; the count never grows; the highlighted
    ranges kept are the first [limit] ones of the previous ranges, over the
    same text; the commit, the repository and the other preview are left
    as they were. *)
Theorem commit_limit_budget (cm : CommitMatch) (p : MatchedString) (limit : Z) :
  1 <= limit <= 2 ^ 63 - 1 ->
  activePreview cm = Some p ->
  exists r cm' p',
    CommitMatch_Limit limit cm = Returns (r, cm') /\
    0 <= r /\ r + CommitMatch_ResultCount cm' = limit /\
    CommitMatch_ResultCount cm' <= CommitMatch_ResultCount cm /\
    activePreview cm' = Some p' /\ Content p' = Content p /\
    MatchedRanges p' = firstn (Z.to_nat limit) (MatchedRanges p) /\
    CMCommit cm' = CMCommit cm /\ CMRepo cm' = CMRepo cm /\
    (DiffPreview cm = None -> DiffPreview cm' = None) /\
    (DiffPreview cm <> None -> MessagePreview cm' = MessagePreview cm).
Proof.
  intros Hl Hp. unfold activePreview in Hp.
  assert (Hms : forall ms : MatchedString,
    exists r ms', limitMatchedString limit ms = Returns (r, ms') /\
      Content ms' = Content ms /\
      MatchedRanges ms' = firstn (Z.to_nat limit) (MatchedRanges ms) /\ 0 <= r /\
      r + (if Z.of_nat (length (MatchedRanges ms')) >? 0
           then Z.of_nat (length (MatchedRanges ms')) else 1) = limit /\
      (if Z.of_nat (length (MatchedRanges ms')) >? 0
       then Z.of_nat (length (MatchedRanges ms')) else 1)
      <= (if Z.of_nat (length (MatchedRanges ms)) >? 0
          then Z.of_nat (length (MatchedRanges ms)) else 1)).
  { intros ms. unfold limitMatchedString.
    destruct (Z.of_nat (length (MatchedRanges ms)) =? 0) eqn:E0.
    - apply Z.eqb_eq in E0. destruct (MatchedRanges ms) eqn:Er; [|simpl in E0; lia].
      exists (int64wrap (limit - 1)), ms. rewrite Er. simpl.
      rewrite int64wrap_small by lia. rewrite firstn_nil.
      repeat split; lia.
    - apply Z.eqb_neq in E0.
      destruct (Z.of_nat (length (MatchedRanges ms)) >? limit) eqn:Eg.
      + apply Z.gtb_lt in Eg. destruct (limit <? 0) eqn:En; [apply Z.ltb_lt in En; lia|].
        eexists 0, _. split; [reflexivity|]. simpl.
        rewrite length_firstn.
        replace (Init.Nat.min (Z.to_nat limit) (length (MatchedRanges ms))) with (Z.to_nat limit) by lia.
        rewrite Z2Nat.id by lia.
        destruct (limit >? 0) eqn:Ep; [|rewrite Z.gtb_ltb, Z.ltb_ge in Ep; lia].
        destruct (Z.of_nat (length (MatchedRanges ms)) >? 0) eqn:Ep2;
          [|rewrite Z.gtb_ltb, Z.ltb_ge in Ep2; lia].
        repeat split; try lia.
      + rewrite Z.gtb_ltb, Z.ltb_ge in Eg.
        exists (int64wrap (limit - Z.of_nat (length (MatchedRanges ms)))), ms.
        rewrite int64wrap_small by lia.
        rewrite firstn_length_le_id by lia.
        destruct (Z.of_nat (length (MatchedRanges ms)) >? 0) eqn:Ep2;
          [|rewrite Z.gtb_ltb, Z.ltb_ge in Ep2; lia].
        repeat split; try lia. }
  unfold CommitMatch_Limit, CommitMatch_ResultCount.
  destruct (DiffPreview cm) as [d|] eqn:Ed.
  - injection Hp as <-. destruct (Hms d) as (r & ms' & Hr & Hc & Hrg & H0 & Hs & Hle).
    rewrite Hr. exists r, (setDiffPreview cm (Some ms')), ms'. simpl.
    repeat split; try assumption; try congruence; intros; congruence.
  - rewrite Hp. destruct (Hms p) as (r & ms' & Hr & Hc & Hrg & H0 & Hs & Hle).
    rewrite Hr. exists r, (setMessagePreview cm (Some ms')), ms'.
    unfold activePreview. simpl. rewrite Ed. repeat split; try assumption; try congruence.
Qed.

Lemma commit_limit_budget_witness :
  exists r cm' p',
    CommitMatch_Limit 4 diffCommit10 = Returns (r, cm') /\
    0 <= r /\ r + CommitMatch_ResultCount cm' = 4 /\
    CommitMatch_ResultCount cm' <= CommitMatch_ResultCount diffCommit10 /\
    activePreview cm' = Some p' /\ Content p' = "diff" /\
    MatchedRanges p' = firstn (Z.to_nat 4) (map range [1;2;3;4;5;6;7;8;9;10]) /\
    CMCommit cm' = CMCommit diffCommit10 /\ CMRepo cm' = CMRepo diffCommit10 /\
    (DiffPreview diffCommit10 = None -> DiffPreview cm' = None) /\
    (DiffPreview diffCommit10 <> None -> MessagePreview cm' = MessagePreview diffCommit10).
Proof.
  exact (commit_limit_budget diffCommit10
           {| Content := "diff"; MatchedRanges := map range [1;2;3;4;5;6;7;8;9;10] |} 4
           ltac:(lia) eq_refl).
Defined.

(** Limits below 1 on a highlighted commit match: [Limit(0)] removes every
    highlight and returns 0, yet the match still counts as one result;
    a negative limit panics (the slice [[:limit]]). *)
Theorem commit_limit_nonpositive (cm : CommitMatch) (p : MatchedString) :
  activePreview cm = Some p ->
  MatchedRanges p <> [] ->
  (exists cm' p',
     CommitMatch_Limit 0 cm = Returns (0, cm') /\
     activePreview cm' = Some p' /\ Content p' = Content p /\ MatchedRanges p' = [] /\
     CommitMatch_ResultCount cm' = 1) /\
  (forall limit, limit < 0 -> exists msg, CommitMatch_Limit limit cm = Panics msg).
Proof.
  intros Hp Hne.
  assert (Hn : (Z.of_nat (length (MatchedRanges p)) =? 0) = false).
  { apply Z.eqb_neq. destruct (MatchedRanges p); [congruence|simpl; lia]. }
  assert (Hg : forall limit, limit <= 0 -> (Z.of_nat (length (MatchedRanges p)) >? limit) = true).
  { intros limit Hl. apply Z.gtb_lt. destruct (MatchedRanges p); [congruence|simpl; lia]. }
  unfold activePreview in Hp. unfold CommitMatch_Limit, CommitMatch_ResultCount.
  split.
  - destruct (DiffPreview cm) as [d|] eqn:Ed.
    + injection Hp as <-.
      eexists _, _. split.
      * unfold limitMatchedString. rewrite Hn, (Hg 0 ltac:(lia)). simpl. reflexivity.
      * unfold activePreview. simpl. repeat split; reflexivity.
    + eexists _, _. split.
      * rewrite Hp. unfold limitMatchedString. rewrite Hn, (Hg 0 ltac:(lia)). simpl. reflexivity.
      * unfold activePreview. simpl. rewrite Ed. repeat split; reflexivity.
  - intros limit Hl.
    assert (Hneg : (limit <? 0) = true) by (apply Z.ltb_lt; lia).
    destruct (DiffPreview cm) as [d|] eqn:Ed.
    + injection Hp as <-. eexists. unfold limitMatchedString.
      rewrite Hn, (Hg limit ltac:(lia)), Hneg. reflexivity.
    + rewrite Hp. eexists. unfold limitMatchedString.
      rewrite Hn, (Hg limit ltac:(lia)), Hneg. reflexivity.
Qed.

Lemma commit_limit_nonpositive_witness :
  activePreview diffCommit10 =
    Some {| Content := "diff"; MatchedRanges := map range [1;2;3;4;5;6;7;8;9;10] |} /\
  (exists cm' p',
     CommitMatch_Limit 0 diffCommit10 = Returns (0, cm') /\
     activePreview cm' = Some p' /\ Content p' = "diff" /\ MatchedRanges p' = [] /\
     CommitMatch_ResultCount cm' = 1) /\
  (forall limit, limit < 0 -> exists msg, CommitMatch_Limit limit diffCommit10 = Panics msg).
Proof.
  split; [reflexivity|].
  exact (commit_limit_nonpositive diffCommit10
           {| Content := "diff"; MatchedRanges := map range [1;2;3;4;5;6;7;8;9;10] |}
           eq_refl ltac:(discriminate)).
Defined.

(** The key of a commit-diff match: a diff whose new name is /dev/null is
    a deletion, one whose original name alone is /dev/null an addition,
    every other diff a modification; the key's path is [Path()] for
    additions and deletions and empty for modifications. *)
Theorem commit_diff_key_status (d : CommitDiffMatch) :
  let fd := CDFileDiff d in
  let k := CommitDiffMatch_Key d in
  (KPathStatus k = Deleted <-> NewName fd = "/dev/null") /\
  (KPathStatus k = Added <-> OrigName fd = "/dev/null" /\ NewName fd <> "/dev/null") /\
  (KPathStatus k = Modified <-> OrigName fd <> "/dev/null" /\ NewName fd <> "/dev/null") /\
  KPath k = match KPathStatus k with
            | Modified => EmptyString
            | _ => CommitDiffMatch_Path d
            end /\
  KTypeRank k = rankDiffMatch /\ KRepo k = Name (CDRepo d) /\
  KCommit k = ID (CDCommit d) /\ AuthorDate k = Date (Author (CDCommit d)).
Proof.
  cbv zeta. unfold CommitDiffMatch_Key, CommitDiffMatch_Path.
  destruct (CDFileDiff d) as [o n h]; simpl.
  destruct (String.eqb o "/dev/null") eqn:Eo; destruct (String.eqb n "/dev/null") eqn:En;
    apply String.eqb_eq in Eo || apply String.eqb_neq in Eo;
    apply String.eqb_eq in En || apply String.eqb_neq in En; simpl;
    subst; repeat split; intros; try discriminate; try congruence;
    intuition congruence.
Qed.

(* ------------------------------------------------------------------ *)
(** ** Select on commit matches *)

(** [selectModifiedLines] over non-empty [lines]: when every highlight with
    a non-negative line number points into [lines], it keeps exactly the
    highlights, in order, whose line is non-negative and starts with the
    prefix; a highlight with a non-negative line number past the last
    line makes it panic. *)
Theorem select_modified_lines_filter (lines : list string) (hs : list Range) (prefix : string) :
  lines <> [] ->
  (Forall (fun h => Line (Start h) < 0 \/ (Z.to_nat (Line (Start h)) < length lines)%nat) hs ->
   CommitSelect.selectModifiedLines lines hs prefix =
     Returns (List.filter (fun h => negb (Line (Start h) <? 0) &&
                               match nth_error lines (Z.to_nat (Line (Start h))) with
                               | Some l => HasPrefix l prefix
                               | None => false
                               end)%bool hs)) /\
  (Exists (fun h => 0 <= Line (Start h) /\ (length lines <= Z.to_nat (Line (Start h)))%nat) hs ->
   exists msg, CommitSelect.selectModifiedLines lines hs prefix = Panics msg).
Proof.
  intros Hl.
  assert (Hgo : CommitSelect.selectModifiedLines lines hs prefix =
                CommitSelect.selectModifiedLines_go lines hs prefix).
  { unfold CommitSelect.selectModifiedLines. destruct lines; [congruence|reflexivity]. }
  rewrite Hgo. clear Hgo. split.
  - induction hs as [|h rest IH]; intros Hf; [reflexivity|].
    inversion Hf as [|? ? Hh Hr]; subst. simpl.
    destruct (Line (Start h) <? 0) eqn:Eneg; simpl.
    + apply IH. exact Hr.
    + apply Z.ltb_ge in Eneg. destruct Hh as [Hh|Hh]; [lia|].
      destruct (nth_error lines (Z.to_nat (Line (Start h)))) as [l|] eqn:En.
      * rewrite (IH Hr). simpl. destruct (HasPrefix l prefix); reflexivity.
      * apply nth_error_None in En. lia.
  - induction hs as [|h rest IH]; intros Hx; [inversion Hx|].
    simpl. destruct (Line (Start h) <? 0) eqn:Eneg.
    + apply Z.ltb_lt in Eneg. inversion Hx as [? ? [Hh _]|? ? Hr]; subst; [lia|].
      apply IH. exact Hr.
    + destruct (nth_error lines (Z.to_nat (Line (Start h)))) as [l|] eqn:En.
      * inversion Hx as [? ? [_ Hh]|? ? Hr]; subst.
        -- apply nth_error_None in Hh. congruence.
        -- destruct (IH Hr) as [msg Hm]. exists msg. rewrite Hm. reflexivity.
      * eexists. reflexivity.
Qed.

Lemma select_modified_lines_filter_witness :
  ["+a"; " b"; "-c"] <> [] /\
  Forall (fun h => Line (Start h) < 0 \/ (Z.to_nat (Line (Start h)) < 3)%nat) (map range [0; 1; -1]) /\
  CommitSelect.selectModifiedLines ["+a"; " b"; "-c"] (map range [0; 1; -1]) "+" =
    Returns [range 0].
Proof.
  assert (Hne : ["+a"; " b"; "-c"] <> []) by discriminate.
  assert (Hf : Forall (fun h => Line (Start h) < 0 \/ (Z.to_nat (Line (Start h)) < 3)%nat)
                 (map range [0; 1; -1])).
  { repeat constructor; simpl; lia. }
  split; [exact Hne|]. split; [exact Hf|].
  exact (proj1 (select_modified_lines_filter ["+a"; " b"; "-c"] (map range [0; 1; -1]) "+" Hne) Hf).
Defined.

Lemma selectModifiedLines_go_idem (lines : list string) (hs r : list Range) (prefix : string) :
  CommitSelect.selectModifiedLines_go lines hs prefix = Returns r ->
  CommitSelect.selectModifiedLines_go lines r prefix = Returns r.
Proof.
  revert r. induction hs as [|h rest IH]; intros r H; simpl in H.
  - injection H as <-. reflexivity.
  - destruct (Line (Start h) <? 0) eqn:Eneg; [apply IH; exact H|].
    destruct (nth_error lines (Z.to_nat (Line (Start h)))) as [l|] eqn:En; [|discriminate].
    destruct (CommitSelect.selectModifiedLines_go lines rest prefix) as [r0|] eqn:Er;
      simpl in H; [|discriminate].
    injection H as <-. destruct (HasPrefix l prefix) eqn:Ep.
    + simpl. rewrite Eneg, En, (IH r0 eq_refl). simpl. rewrite Ep. reflexivity.
    + apply IH. reflexivity.
Qed.

Lemma selectModifiedLines_idem (lines : list string) (hs r : list Range) (prefix : string) :
  CommitSelect.selectModifiedLines lines hs prefix = Returns r ->
  CommitSelect.selectModifiedLines lines r prefix = Returns r.
Proof.
  unfold CommitSelect.selectModifiedLines. destruct lines.
  - intros H. injection H as <-. reflexivity.
  - apply selectModifiedLines_go_idem.
Qed.

Lemma selectCommitDiffKind_idem (cm c' : CommitMatch) (k : string) :
  CommitSelect.selectCommitDiffKind cm k = Returns (Some (MCommit c')) ->
  DiffPreview c' <> None /\ CommitSelect.selectCommitDiffKind c' k = Returns (Some (MCommit c')).
Proof.
  unfold CommitSelect.selectCommitDiffKind.
  destruct (DiffPreview cm) as [diff|] eqn:Ed; [|discriminate].
  destruct (MatchedRanges diff) as [|r0 rs] eqn:Er.
  - destruct (CommitSelect.modifiedLinesExist _ _) eqn:Ex; [|discriminate].
    intros H. injection H as <-. rewrite Ed, Er, Ex. split; [discriminate|reflexivity].
  - destruct (CommitSelect.selectModifiedLines _ (r0 :: rs) _) as [hl|] eqn:Es; simpl;
      [|discriminate].
    destruct hl as [|h1 hl]; [discriminate|].
    intros H. injection H as <-. simpl. split; [discriminate|].
    rewrite (selectModifiedLines_idem _ _ _ _ Es). simpl.
    destruct cm; reflexivity.
Qed.

(** [(CommitMatch).Select] is idempotent on the commit matches it returns:
    selecting the same path again gives back the same match. *)
Theorem commit_select_idempotent (path : SelectPath) (cm c' : CommitMatch) :
  CommitSelect.CommitMatch_Select path cm = Returns (Some (MCommit c')) ->
  CommitSelect.CommitMatch_Select path c' = Returns (Some (MCommit c')).
Proof.
  unfold CommitSelect.CommitMatch_Select.
  destruct (String.eqb (CommitSelect.Root path) CommitSelect.Repository); [discriminate|].
  destruct (String.eqb (CommitSelect.Root path) CommitSelect.CommitRoot); [|discriminate].
  destruct (tail path) as [|f0 rest].
  - intros H. injection H as <-. reflexivity.
  - destruct (String.eqb f0 "diff"); [|intros H; injection H as <-; reflexivity].
    destruct (DiffPreview cm) as [d|] eqn:Ed; [|discriminate].
    destruct rest as [|k [|k2 rest]].
    + intros H. injection H as <-. rewrite Ed. reflexivity.
    + intros H. destruct (selectCommitDiffKind_idem cm c' k H) as [Hd Hk].
      destruct (DiffPreview c'); [exact Hk|congruence].
    + discriminate.
Qed.

Lemma commit_select_idempotent_witness :
  CommitSelect.CommitMatch_Select ["commit"; "diff"; "added"] diffSelectSample =
    Returns (Some (MCommit (setDiffPreview diffSelectSample
      (Some {| Content := "+a" ++ String CommitSelect.newline " b"; MatchedRanges := [range 0] |})))) /\
  CommitSelect.CommitMatch_Select ["commit"; "diff"; "added"]
    (setDiffPreview diffSelectSample
      (Some {| Content := "+a" ++ String CommitSelect.newline " b"; MatchedRanges := [range 0] |})) =
    Returns (Some (MCommit (setDiffPreview diffSelectSample
      (Some {| Content := "+a" ++ String CommitSelect.newline " b"; MatchedRanges := [range 0] |})))).
Proof.
  assert (H : CommitSelect.CommitMatch_Select ["commit"; "diff"; "added"] diffSelectSample =
    Returns (Some (MCommit (setDiffPreview diffSelectSample
      (Some {| Content := "+a" ++ String CommitSelect.newline " b"; MatchedRanges := [range 0] |}))))).
  { vm_compute. reflexivity. }
  split; [exact H|]. exact (commit_select_idempotent _ _ _ H).
Defined.

(* ------------------------------------------------------------------ *)
(** ** Repository display names *)

Lemma Split_not_nil (s : string) (c : ascii) : GoStrings.Split s c <> [].
Proof.
  destruct s as [|a r]; simpl; [discriminate|].
  destruct (Ascii.eqb a c); [discriminate|]. destruct (GoStrings.Split r c); discriminate.
Qed.

Lemma Join_cons_String (a : ascii) (h : string) (t : list string) (sep : string) :
  Join (String a h :: t) sep = String a (Join (h :: t) sep).
Proof. destruct t; reflexivity. Qed.

(** [strings.Join(strings.Split(s, c), c)] gives [s] back. *)
Lemma Join_Split (s : string) (c : ascii) : Join (GoStrings.Split s c) (String c EmptyString) = s.
Proof.
  induction s as [|a r IH]; [reflexivity|]. simpl.
  destruct (Ascii.eqb a c) eqn:E.
  - apply Ascii.eqb_eq in E. subst.
    destruct (GoStrings.Split r c) as [|x l] eqn:Es; [exfalso; exact (Split_not_nil r c Es)|].
    simpl. rewrite <- IH. reflexivity.
  - destruct (GoStrings.Split r c) as [|h t] eqn:Es; [exfalso; exact (Split_not_nil r c Es)|].
    rewrite Join_cons_String. rewrite IH. reflexivity.
Qed.

Lemma Split_no_sep (s : string) (c : ascii) :
  CommitSelect.containsChar c s = false -> GoStrings.Split s c = [s].
Proof.
  induction s as [|a r IH]; [reflexivity|]. simpl.
  destruct (Ascii.eqb a c) eqn:E; [discriminate|].
  intros H. rewrite (IH H). reflexivity.
Qed.

Lemma Split_app_sep (x y : string) (c : ascii) :
  CommitSelect.containsChar c x = false ->
  GoStrings.Split (x ++ String c y) c = x :: GoStrings.Split y c.
Proof.
  induction x as [|a r IH]; simpl.
  - rewrite Ascii.eqb_refl. reflexivity.
  - destruct (Ascii.eqb a c) eqn:E; [discriminate|].
    intros H. rewrite (IH H). reflexivity.
Qed.

Lemma Split_length_sep (s : string) (c : ascii) :
  CommitSelect.containsChar c s = true -> (2 <= length (GoStrings.Split s c))%nat.
Proof.
  induction s as [|a r IH]; simpl; [discriminate|].
  destruct (Ascii.eqb a c) eqn:E.
  - intros _. pose proof (Split_not_nil r c).
    destruct (GoStrings.Split r c); [congruence|simpl; lia].
  - intros H. specialize (IH H).
    destruct (GoStrings.Split r c); simpl in *; lia.
Qed.

(** [displayRepoName]: a path of at least three slash-separated parts
    whose first part contains a dot (a host name) loses that first part;
    every other path, including one without a slash, is left as it is. *)
Theorem display_repo_name (host rest : string) :
  CommitSelect.containsChar "/" host = false ->
  ((CommitSelect.containsChar "." host && CommitSelect.containsChar "/" rest)%bool = true ->
   CommitSelect.displayRepoName (host ++ "/" ++ rest) = rest) /\
  ((CommitSelect.containsChar "." host && CommitSelect.containsChar "/" rest)%bool = false ->
   CommitSelect.displayRepoName (host ++ "/" ++ rest) = (host ++ "/" ++ rest)%string) /\
  (CommitSelect.containsChar "/" rest = false ->
   CommitSelect.displayRepoName rest = rest).
Proof.
  intros Hh. unfold CommitSelect.displayRepoName.
  change ("/" ++ rest)%string with (String "/" rest).
  rewrite (Split_app_sep host rest "/" Hh). simpl nth.
  split; [|split].
  - intros H. apply andb_true_iff in H. destruct H as [Hd Hs].
    pose proof (Split_length_sep rest "/" Hs) as Hlen.
    rewrite Hd. destruct (Nat.leb 3 (length (host :: GoStrings.Split rest "/"))) eqn:E.
    + simpl. apply Join_Split.
    + apply Nat.leb_gt in E. simpl in E. lia.
  - intros H.
    assert (Hc : (Nat.leb 3 (length (host :: GoStrings.Split rest "/"))
                  && CommitSelect.containsChar "." host)%bool = false).
    { destruct (CommitSelect.containsChar "." host) eqn:Hd; [|apply andb_false_r].
      simpl in H. rewrite (Split_no_sep rest "/" H). reflexivity. }
    rewrite Hc. rewrite <- (Split_app_sep host rest "/" Hh). apply Join_Split.
  - intros H. rewrite (Split_no_sep rest "/" H). simpl. reflexivity.
Qed.

Lemma display_repo_name_witness :
  CommitSelect.containsChar "/" "github.com" = false /\
  CommitSelect.displayRepoName ("github.com" ++ "/" ++ "sourcegraph/sourcegraph") =
    "sourcegraph/sourcegraph".
Proof.
  assert (H : CommitSelect.containsChar "/" "github.com" = false) by reflexivity.
  split; [exact H|].
  exact (proj1 (display_repo_name "github.com" "sourcegraph/sourcegraph" H) eq_refl).
Defined.

(* ------------------------------------------------------------------ *)
(** ** The diff parser *)

Lemma append_String (c : ascii) (r t : string) :
  (String c r ++ t)%string = String c (r ++ t).
Proof. reflexivity. Qed.

Lemma append_nil_r (s : string) : (s ++ EmptyString)%string = s.
Proof.
  induction s as [|c r IH]; [reflexivity|]. rewrite append_String, IH. reflexivity.
Qed.

Lemma length_append (s t : string) :
  String.length (s ++ t) = (String.length s + String.length t)%nat.
Proof.
  induction s as [|c r IH]; [reflexivity|]. rewrite append_String. simpl. rewrite IH. reflexivity.
Qed.

Lemma append_assoc_str (a b c : string) : ((a ++ b) ++ c)%string = (a ++ b ++ c)%string.
Proof. induction a as [|x a IH]; [reflexivity|]. rewrite !append_String, IH. reflexivity. Qed.

Lemma substring_full (r : string) : substring 0 (String.length r) r = r.
Proof. induction r as [|c r IH]; simpl; [reflexivity|]. rewrite IH. reflexivity. Qed.

Lemma length_sliceFrom (a : string) (n : nat) :
  String.length (sliceFrom a n) = (String.length a - n)%nat.
Proof.
  unfold sliceFrom. revert n. induction a as [|c a IH]; intros n.
  - destruct n; reflexivity.
  - destruct n as [|n].
    + rewrite Nat.sub_0_r, substring_full. reflexivity.
    + simpl. apply IH.
Qed.

Lemma substring_app_l (a t : string) (n : nat) :
  (n <= String.length a)%nat -> substring 0 n (a ++ t) = substring 0 n a.
Proof.
  revert n. induction a as [|c a IH]; intros n Hn.
  - simpl in Hn. destruct n; [|lia]. destruct t; reflexivity.
  - destruct n as [|n]; [reflexivity|]. rewrite append_String. simpl in *.
    rewrite IH by lia. reflexivity.
Qed.

Lemma sliceFrom_app_l (a t : string) (n : nat) :
  (n <= String.length a)%nat -> sliceFrom (a ++ t) n = (sliceFrom a n ++ t)%string.
Proof.
  unfold sliceFrom. revert n. induction a as [|c a IH]; intros n Hn.
  - simpl in Hn. destruct n; [|lia]. change (EmptyString ++ t)%string with t.
    rewrite Nat.sub_0_r, substring_full. reflexivity.
  - destruct n as [|n].
    + rewrite !Nat.sub_0_r, !substring_full. reflexivity.
    + rewrite append_String. simpl in *. apply IH. lia.
Qed.

Lemma substring_sliceFrom (a : string) (n : nat) :
  (substring 0 n a ++ sliceFrom a n)%string = a.
Proof.
  unfold sliceFrom. revert n. induction a as [|c a IH]; intros n.
  - destruct n; reflexivity.
  - destruct n as [|n].
    + change (EmptyString ++ substring 0 (String.length (String c a) - 0) (String c a))%string
        with (substring 0 (String.length (String c a) - 0) (String c a)).
      rewrite Nat.sub_0_r. apply substring_full.
    + simpl. rewrite append_String, IH. reflexivity.
Qed.

(** The width [DecodeRuneInString] reports is at least one byte and at
    most the length of the string. *)
Lemma decode_size (s : string) :
  s <> EmptyString -> (1 <= snd (DecodeRuneInString s) <= String.length s)%nat.
Proof.
  intros Hne. destruct s as [|c0 [|c1 [|c2 [|c3 s4]]]]; [congruence| | | |];
    unfold DecodeRuneInString; cbv beta iota zeta;
    repeat (match goal with |- context [if ?b then _ else _] => destruct b end);
    simpl; lia.
Qed.

(** A rune decoded without error stays the same when bytes follow. *)
Lemma decode_app (s t : string) (r : Z) (n : nat) :
  s <> EmptyString -> DecodeRuneInString s = (r, n) -> ~ (r = RuneError /\ n = 1%nat) ->
  DecodeRuneInString (s ++ t) = (r, n).
Proof.
  intros Hne. destruct s as [|c0 [|c1 [|c2 [|c3 s4]]]]; [congruence| | | |];
    rewrite ?append_String; unfold DecodeRuneInString; cbv beta iota zeta;
    repeat (match goal with |- context [if ?b then _ else _] => destruct b end);
    intros H Hv; first [exact H | injection H as <- <-; exfalso; apply Hv; split; reflexivity].
Qed.

Lemma FieldsAux_fuel (f g : nat) (s : string) :
  (String.length s <= f)%nat -> (String.length s <= g)%nat ->
  DiffParser.FieldsAux f s = DiffParser.FieldsAux g s.
Proof.
  revert g s. induction f as [|f IH]; intros g s Hf Hg.
  - destruct s; [|simpl in Hf; lia]. destruct g; reflexivity.
  - destruct g as [|g]; [destruct s; [reflexivity|simpl in Hg; lia]|].
    destruct s as [|c r]; [reflexivity|].
    cbn [DiffParser.FieldsAux].
    pose proof (decode_size (String c r) ltac:(discriminate)) as Hn.
    destruct (DecodeRuneInString (String c r)) as [rr n]. simpl in Hn.
    cbv beta iota.
    rewrite (IH g (sliceFrom (String c r) n)); [reflexivity| |];
      rewrite length_sliceFrom; simpl in *; lia.
Qed.

(** A valid UTF-8 word without space runes at the front of a string is
    the front of the first field. *)
Lemma FieldsAux_app_word (k : nat) (a t : string) :
  (String.length a <= k)%nat -> spaceFreeRunes k a = true ->
  DiffParser.FieldsAux (String.length (a ++ t)) (a ++ t) =
    ((a ++ fst (DiffParser.FieldsAux (String.length t) t))%string,
     snd (DiffParser.FieldsAux (String.length t) t)).
Proof.
  revert a. induction k as [|k IH]; intros a Hl Hw.
  - destruct a; [|simpl in Hl; lia]. change (EmptyString ++ t)%string with t.
    destruct (DiffParser.FieldsAux _ t); reflexivity.
  - destruct a as [|c r].
    { change (EmptyString ++ t)%string with t. destruct (DiffParser.FieldsAux _ t); reflexivity. }
    cbn [spaceFreeRunes] in Hw.
    pose proof (decode_size (String c r) ltac:(discriminate)) as Hn.
    destruct (DecodeRuneInString (String c r)) as [rr n] eqn:Ed. simpl in Hn.
    cbv beta iota in Hw.
    apply andb_true_iff in Hw as [Hw Hrest]. apply andb_true_iff in Hw as [Hv Hns].
    assert (Hd : DecodeRuneInString (String c r ++ t) = (rr, n)).
    { apply decode_app; [discriminate|exact Ed|].
      intros [-> ->]. vm_compute in Hv. discriminate Hv. }
    apply negb_true_iff in Hns.
    rewrite append_String. cbn [String.length DiffParser.FieldsAux].
    rewrite <- append_String, Hd. cbv beta iota.
    rewrite (sliceFrom_app_l (String c r) t n (proj2 Hn)).
    rewrite (FieldsAux_fuel _ (String.length (sliceFrom (String c r) n ++ t)))
      by (rewrite ?length_append, ?length_sliceFrom; simpl in *; lia).
    rewrite (IH (sliceFrom (String c r) n))
      by (first [rewrite length_sliceFrom; simpl in *; lia | exact Hrest]).
    cbv beta iota. rewrite Hns.
    rewrite (substring_app_l (String c r) t n (proj2 Hn)), <- append_assoc_str, substring_sliceFrom.
    reflexivity.
Qed.

(** [splitDiffFiles] reads back the two names of a file line [a b] when
    [a] and [b] are valid UTF-8 words without white space. *)
Theorem split_diff_files_roundtrip (a b : string) :
  a <> EmptyString -> b <> EmptyString -> isWord a = true -> isWord b = true ->
  DiffParser.splitDiffFiles (a ++ " " ++ b) = inl (a, b).
Proof.
  intros Ha Hb Hwa Hwb. unfold DiffParser.splitDiffFiles, DiffParser.Fields.
  rewrite (FieldsAux_app_word _ a _ (le_n _) Hwa).
  assert (HB : DiffParser.FieldsAux (String.length b) b = (b, [])).
  { pose proof (FieldsAux_app_word _ b "" (le_n _) Hwb) as Hb'.
    rewrite append_nil_r in Hb'. rewrite Hb'. simpl. rewrite append_nil_r. reflexivity. }
  assert (Hsl : sliceFrom (String " " b) 1 = b).
  { unfold sliceFrom. simpl. rewrite Nat.sub_0_r. apply substring_full. }
  assert (HS : DiffParser.FieldsAux (String.length (" " ++ b)) (" " ++ b) = (EmptyString, [b])).
  { change (" " ++ b)%string with (String " " b). cbn [String.length DiffParser.FieldsAux].
    change (DecodeRuneInString (String " " b)) with (32, 1%nat). cbv beta iota.
    rewrite Hsl, HB. simpl. destruct b; [congruence|reflexivity]. }
  rewrite HS. simpl. rewrite append_nil_r.
  destruct a; [congruence|reflexivity].
Qed.

(** A file line whose first name has a non-ASCII letter (U+00E9, two
    bytes in UTF-8). *)
Lemma split_diff_files_roundtrip_witness :
  DiffParser.splitDiffFiles
    (("a/caf" ++ String "195"%char (String "169"%char ".go")) ++ " " ++ "b/main.go") =
  inl ("a/caf" ++ String "195"%char (String "169"%char ".go"), "b/main.go")%string.
Proof.
  exact (split_diff_files_roundtrip ("a/caf" ++ String "195"%char (String "169"%char ".go"))
           "b/main.go" ltac:(discriminate) ltac:(discriminate) eq_refl eq_refl).
Defined.

Lemma expect_app (lit r : string) : DiffParser.expect lit (lit ++ r) = Some r.
Proof.
  unfold DiffParser.expect.
  assert (Hp : String.prefix lit (lit ++ r) = true).
  { induction lit as [|c l IH]; [destruct r; reflexivity|].
    rewrite append_String. simpl. rewrite IH.
    destruct (Ascii.ascii_dec c c); [reflexivity|congruence]. }
  rewrite Hp. unfold sliceFrom. rewrite length_append.
  replace (String.length lit + String.length r - String.length lit)%nat with (String.length r) by lia.
  clear Hp. induction lit as [|c l IH].
  - change (EmptyString ++ r)%string with r. rewrite substring_full. reflexivity.
  - rewrite append_String. simpl. exact IH.
Qed.

Lemma spanDigits_app (d r : string) :
  allDigits d = true ->
  match r with String c _ => DiffParser.isDigit c = false | EmptyString => True end ->
  DiffParser.spanDigits (d ++ r) = (d, r).
Proof.
  intros Hd Hr. induction d as [|c l IH]; simpl.
  - destruct r as [|c r]; [reflexivity|]. simpl. rewrite Hr. reflexivity.
  - simpl in Hd. apply andb_true_iff in Hd. destruct Hd as [Hc Hl].
    rewrite Hc, (IH Hl). reflexivity.
Qed.

Lemma digitsThen_app (d r : string) :
  d <> EmptyString -> allDigits d = true ->
  match r with String c _ => DiffParser.isDigit c = false | EmptyString => True end ->
  DiffParser.digitsThen (d ++ r) = Some (d, r).
Proof.
  intros Hne Hd Hr. unfold DiffParser.digitsThen. rewrite (spanDigits_app d r Hd Hr).
  destruct d; [congruence|reflexivity].
Qed.

Lemma untilNewline_id (t : string) :
  CommitSelect.containsChar CommitSelect.newline t = false -> DiffParser.untilNewline t = t.
Proof.
  induction t as [|c r IH]; simpl; [reflexivity|].
  unfold CommitSelect.newline. destruct (Ascii.eqb c "010"%char); [discriminate|].
  intros H. rewrite (IH H). reflexivity.
Qed.

(** [parseHunkHeader] reads back the four numbers and the section text of
    a hunk header [@@ -a,b +c,d @@ text] written with decimal digits,
    when the numbers fit in a Go [int]. *)
Theorem parse_hunk_header_roundtrip (d1 d2 d3 d4 text : string) :
  Forall (fun d => d <> EmptyString /\ allDigits d = true /\
                   DiffParser.digitsValue d 0 <= 2 ^ 63 - 1) [d1; d2; d3; d4] ->
  CommitSelect.containsChar CommitSelect.newline text = false ->
  DiffParser.parseHunkHeader
    ("@@ -" ++ d1 ++ "," ++ d2 ++ " +" ++ d3 ++ "," ++ d4 ++ " @@ " ++ text) =
  inl (DiffParser.digitsValue d1 0, DiffParser.digitsValue d2 0,
       DiffParser.digitsValue d3 0, DiffParser.digitsValue d4 0, text).
Proof.
  intros Hd Ht.
  inversion Hd as [|? ? [H1n [H1d H1v]] Hd2]; subst.
  inversion Hd2 as [|? ? [H2n [H2d H2v]] Hd3]; subst.
  inversion Hd3 as [|? ? [H3n [H3d H3v]] Hd4]; subst.
  inversion Hd4 as [|? ? [H4n [H4d H4v]] _]; subst.
  unfold DiffParser.parseHunkHeader, DiffParser.FindStringSubmatch.
  assert (Hh : DiffParser.headerAt
      ("@@ -" ++ d1 ++ "," ++ d2 ++ " +" ++ d3 ++ "," ++ d4 ++ " @@ " ++ text) =
      Some (d1, d2, d3, d4, text)).
  { unfold DiffParser.headerAt.
    rewrite expect_app. rewrite (digitsThen_app d1 _ H1n H1d) by reflexivity.
    rewrite expect_app. rewrite (digitsThen_app d2 _ H2n H2d) by reflexivity.
    rewrite expect_app. rewrite (digitsThen_app d3 _ H3n H3d) by reflexivity.
    rewrite expect_app. rewrite (digitsThen_app d4 _ H4n H4d) by reflexivity.
    rewrite expect_app. rewrite (untilNewline_id text Ht). reflexivity. }
  destruct (String.length _) eqn:El; simpl DiffParser.findHeader; rewrite Hh;
    unfold DiffParser.Atoi;
    rewrite (proj2 (Z.leb_le _ _) H1v), (proj2 (Z.leb_le _ _) H2v),
            (proj2 (Z.leb_le _ _) H3v), (proj2 (Z.leb_le _ _) H4v); reflexivity.
Qed.

Lemma parse_hunk_header_roundtrip_witness :
  DiffParser.parseHunkHeader ("@@ -" ++ "12" ++ "," ++ "7" ++ " +" ++ "12" ++ "," ++ "9" ++
                              " @@ " ++ "func main() {") =
  inl (12, 7, 12, 9, "func main() {").
Proof.
  exact (parse_hunk_header_roundtrip "12" "7" "12" "9" "func main() {"
           ltac:(repeat constructor; vm_compute; congruence) eq_refl).
Defined.

Lemma Split_Join (ls : list string) (c : ascii) :
  ls <> [] -> Forall (fun l => CommitSelect.containsChar c l = false) ls ->
  GoStrings.Split (Join ls (String c EmptyString)) c = ls.
Proof.
  induction ls as [|x t IH]; intros Hne Hf; [congruence|].
  inversion Hf as [|? ? Hx Ht]; subst.
  destruct t as [|y t].
  - simpl. apply Split_no_sep. exact Hx.
  - change (Join (x :: y :: t) (String c EmptyString))
      with (x ++ String c EmptyString ++ Join (y :: t) (String c EmptyString))%string.
    change (String c EmptyString ++ Join (y :: t) (String c EmptyString))%string
      with (String c (Join (y :: t) (String c EmptyString))).
    rewrite (Split_app_sep _ _ _ Hx). rewrite (IH ltac:(discriminate) Ht). reflexivity.
Qed.

Lemma parseLines_hunk_body (body : list string) (res : list DiffParser.diffFile)
      (d : DiffParser.diffFile) (h : DiffParser.diffHunk) :
  Forall hunkBodyLine body ->
  DiffParser.parseLines body res d h DiffParser.IN_HUNK = inl res.
Proof.
  revert d h. induction body as [|l rest IH]; intros d h Hf; [reflexivity|].
  inversion Hf as [|? ? Hl Hr]; subst.
  destruct l as [|c0 r]; simpl; [apply IH; exact Hr|].
  unfold hunkBodyLine in Hl. destruct Hl as [->|[->|[->|[-> [hh Hh]]]]]; simpl; try (apply IH; exact Hr).
  rewrite Hh. apply IH. exact Hr.
Qed.

(** [parseDiffString] only appends a file when the header of the next file
    is read: the diff of a single file, a file line, a hunk header and hunk
    lines, parses to no file at all. *)
Theorem parse_diff_single_file (fileLine hunkLine : string) (body : list string)
        (p : string * string) (hh : Z * Z * Z * Z * string) :
  DiffParser.splitDiffFiles fileLine = inl p ->
  DiffParser.parseHunkHeader hunkLine = inl hh ->
  Forall (fun l => CommitSelect.containsChar CommitSelect.newline l = false)
         (fileLine :: hunkLine :: body) ->
  Forall hunkBodyLine body ->
  DiffParser.parseDiffString
    (Join (fileLine :: hunkLine :: body) (String CommitSelect.newline EmptyString)) = inl [].
Proof.
  intros Hf Hh Hnl Hb. unfold DiffParser.parseDiffString.
  rewrite (Split_Join (fileLine :: hunkLine :: body) _ ltac:(discriminate) Hnl).
  destruct fileLine as [|c1 r1]; [discriminate|].
  destruct hunkLine as [|c2 r2]; [discriminate|].
  simpl. rewrite Hf. simpl. rewrite Hh. apply parseLines_hunk_body. exact Hb.
Qed.

Lemma parse_diff_single_file_witness :
  DiffParser.parseDiffString
    (Join ["a/main.go b/main.go"; "@@ -1,2 +1,2 @@ func main() {"; "-old"; "+new"; " ctx"]
          (String CommitSelect.newline EmptyString)) = inl [].
Proof.
  apply (parse_diff_single_file "a/main.go b/main.go" "@@ -1,2 +1,2 @@ func main() {"
           ["-old"; "+new"; " ctx"] ("a/main.go", "b/main.go") (1, 2, 1, 2, "func main() {")).
  - vm_compute. reflexivity.
  - vm_compute. reflexivity.
  - repeat constructor.
  - constructor; [left; reflexivity|]. constructor; [right; left; reflexivity|].
    constructor; [right; right; left; reflexivity|]. constructor.
Defined.



(* ------------------------------------------------------------------ *)
(** ** Commit diff results for compute *)

(** [toCommitDiffResults] leaves no commit match with a diff preview, and
    every match it returns is either an input match without a diff preview,
    or a commit-diff match for one file diff that [ParseMultiFileDiff]
    produced from the diff preview of an input commit match, carrying that
    match's commit and repository. *)
Theorem commit_diff_results_provenance
        (ParseMultiFileDiff : string -> list FileDiff + string) (ms : list Match) (m' : Match) :
  In m' (ComputeStream.toCommitDiffResults ParseMultiFileDiff ms) ->
  ComputeStream.isDiffCommit m' = false /\
  ((In m' ms /\ ComputeStream.isDiffCommit m' = false) \/
   exists v d fds fd,
     In (MCommit v) ms /\ DiffPreview v = Some d /\ ParseMultiFileDiff (Content d) = inl fds /\
     In fd fds /\
     m' = MCommitDiff {| CDCommit := CMCommit v; CDRepo := CMRepo v; CDFileDiff := fd |}).
Proof.
  unfold ComputeStream.toCommitDiffResults. intros Hin.
  apply in_flat_map in Hin. destruct Hin as [m [Hm Hin]].
  destruct m as [r|v|dm].
  - destruct Hin as [<-|[]]. split; [reflexivity|]. left. split; [exact Hm|reflexivity].
  - destruct (DiffPreview v) as [d|] eqn:Ed.
    + destruct (ParseMultiFileDiff (Content d)) as [fds|e] eqn:Ep; [|destruct Hin].
      apply in_map_iff in Hin. destruct Hin as [fd [<- Hfd]].
      split; [reflexivity|]. right. exists v, d, fds, fd. repeat split; assumption.
    + destruct Hin as [<-|[]].
      assert (Hc : ComputeStream.isDiffCommit (MCommit v) = false) by (simpl; rewrite Ed; reflexivity).
      split; [exact Hc|]. left. split; [exact Hm|exact Hc].
  - destruct Hin as [<-|[]]. split; [reflexivity|]. left. split; [exact Hm|reflexivity].
Qed.

Lemma commit_diff_results_provenance_witness :
  ComputeStream.isDiffCommit (MCommitDiff diffFoo) = false /\
  ((In (MCommitDiff diffFoo) [MCommit diffCommit10] /\
    ComputeStream.isDiffCommit (MCommitDiff diffFoo) = false) \/
   exists v d fds fd,
     In (MCommit v) [MCommit diffCommit10] /\ DiffPreview v = Some d /\
     parseAsFoo (Content d) = inl fds /\ In fd fds /\
     MCommitDiff diffFoo =
       MCommitDiff {| CDCommit := CMCommit v; CDRepo := CMRepo v; CDFileDiff := fd |}).
Proof.
  apply (commit_diff_results_provenance parseAsFoo [MCommit diffCommit10] (MCommitDiff diffFoo)).
  simpl. left. reflexivity.
Defined.

Lemma commit_diff_results_no_diff_commit
      (ParseMultiFileDiff : string -> list FileDiff + string) (ms : list Match) :
  Forall (fun m => ComputeStream.isDiffCommit m = false)
         (ComputeStream.toCommitDiffResults ParseMultiFileDiff ms).
Proof.
  unfold ComputeStream.toCommitDiffResults. apply List.Forall_forall. intros m' Hin.
  apply in_flat_map in Hin. destruct Hin as [m [_ Hin]].
  destruct m as [r|v|dm].
  - destruct Hin as [<-|[]]. reflexivity.
  - destruct (DiffPreview v) as [d|] eqn:Ed.
    + destruct (ParseMultiFileDiff (Content d)); [|destruct Hin].
      apply in_map_iff in Hin. destruct Hin as [fd [<- _]]. reflexivity.
    + destruct Hin as [<-|[]]. simpl. rewrite Ed. reflexivity.
  - destruct Hin as [<-|[]]. reflexivity.
Qed.

Lemma commit_diff_results_id (ParseMultiFileDiff : string -> list FileDiff + string) (ms : list Match) :
  Forall (fun m => ComputeStream.isDiffCommit m = false) ms ->
  ComputeStream.toCommitDiffResults ParseMultiFileDiff ms = ms.
Proof.
  unfold ComputeStream.toCommitDiffResults.
  induction ms as [|m rest IH]; intros Hf; [reflexivity|].
  inversion Hf as [|? ? Hm Hr]; subst. simpl. rewrite (IH Hr).
  destruct m as [r|v|dm]; try reflexivity.
  simpl in Hm. destruct (DiffPreview v); [discriminate|reflexivity].
Qed.

(** [toCommitDiffResults] returns a list without commit matches that carry
    a diff preview unchanged, and applying it twice is the same as
    applying it once. *)
Theorem commit_diff_results_idempotent
        (ParseMultiFileDiff : string -> list FileDiff + string) (ms : list Match) :
  (Forall (fun m => ComputeStream.isDiffCommit m = false) ms ->
   ComputeStream.toCommitDiffResults ParseMultiFileDiff ms = ms) /\
  ComputeStream.toCommitDiffResults ParseMultiFileDiff
    (ComputeStream.toCommitDiffResults ParseMultiFileDiff ms) =
  ComputeStream.toCommitDiffResults ParseMultiFileDiff ms.
Proof.
  split; [apply commit_diff_results_id|].
  apply commit_diff_results_id. apply commit_diff_results_no_diff_commit.
Qed.

Lemma runAll_prefix {R : Type} (Run : Match -> R + string) (ms : list Match) :
  match ComputeStream.runAll R Run ms with
  | (rs, None) => map Run ms = map inl rs
  | (rs, Some e) => exists pre m post,
      ms = pre ++ m :: post /\ Run m = inr e /\ map Run pre = map inl rs
  end.
Proof.
  induction ms as [|m rest IH]; [reflexivity|]. simpl.
  destruct (Run m) as [r|e] eqn:Er.
  - destruct (ComputeStream.runAll R Run rest) as [rs [e|]] eqn:Ea.
    + destruct IH as (pre & m0 & post & -> & Hm0 & Hpre).
      exists (m :: pre), m0, post. simpl. rewrite ?Er, Hpre. repeat split; assumption.
    + simpl. rewrite ?Er, IH. reflexivity.
  - exists [], m, rest. repeat split; assumption.
Qed.

(** [toComputeResultStream] runs the command on the converted matches in
    order and passes each result to the callback: without an error the
    callback gets one result per converted match; on an error it has been
    called exactly on the matches before the first one that failed, and
    that failure's error is returned. *)
Theorem compute_stream_prefix
        (ParseMultiFileDiff : string -> list FileDiff + string)
        (R : Type) (Run : Match -> R + string) (ms : list Match) :
  let converted := ComputeStream.toCommitDiffResults ParseMultiFileDiff ms in
  match ComputeStream.toComputeResultStream ParseMultiFileDiff R Run ms with
  | (rs, None) => map Run converted = map inl rs
  | (rs, Some e) => exists pre m post,
      converted = pre ++ m :: post /\ Run m = inr e /\ map Run pre = map inl rs
  end.
Proof. apply runAll_prefix. Qed.

Lemma commit_diff_results_idempotent_witness :
  ComputeStream.toCommitDiffResults parseAsFoo [MCommitDiff diffBar] = [MCommitDiff diffBar] /\
  ComputeStream.toCommitDiffResults parseAsFoo
    (ComputeStream.toCommitDiffResults parseAsFoo [MCommit diffCommit10]) =
  ComputeStream.toCommitDiffResults parseAsFoo [MCommit diffCommit10].
Proof.
  split.
  - apply (proj1 (commit_diff_results_idempotent parseAsFoo [MCommitDiff diffBar])).
    repeat constructor.
  - exact (proj2 (commit_diff_results_idempotent parseAsFoo [MCommit diffCommit10])).
Defined.

(* ------------------------------------------------------------------ *)
(** ** The clause built by the only-select rule *)

Lemma prefix_app_ex (p t : string) : String.prefix p t = true -> exists r, t = (p ++ r)%string.
Proof.
  revert t. induction p as [|c p IH]; intros t H.
  - exists t. reflexivity.
  - destruct t as [|c' t]; simpl in H; [discriminate|].
    destruct (Ascii.ascii_dec c c') as [<-|]; [|discriminate].
    destruct (IH t H) as [r ->]. exists r. reflexivity.
Qed.

Lemma sliceFrom_split (s : string) (i : nat) :
  (i <= String.length s)%nat -> exists u, String.length u = i /\ s = (u ++ sliceFrom s i)%string.
Proof.
  unfold sliceFrom. revert i. induction s as [|c r IH]; intros i Hi.
  - exists EmptyString. simpl in Hi. destruct i; [|lia]. split; reflexivity.
  - destruct i as [|k].
    + exists EmptyString. split; [reflexivity|]. rewrite Nat.sub_0_r.
      change (EmptyString ++ substring 0 (String.length (String c r)) (String c r))%string
        with (substring 0 (String.length (String c r)) (String c r)).
      rewrite substring_full. reflexivity.
    + simpl in Hi. destruct (IH k ltac:(lia)) as [u [Hu Hr]].
      exists (String c u). split; [simpl; lia|]. rewrite append_String.
      simpl. rewrite <- Hr. reflexivity.
Qed.

Lemma substring_app_off (u x : string) (k m : nat) :
  substring (String.length u + k) m (u ++ x) = substring k m x.
Proof. induction u as [|c u IH]; [reflexivity|]. rewrite append_String. simpl. exact IH. Qed.

Lemma sliceFrom_app (u x : string) (k : nat) :
  sliceFrom (u ++ x) (String.length u + k) = sliceFrom x k.
Proof.
  unfold sliceFrom. rewrite length_append.
  replace (String.length u + String.length x - (String.length u + k))%nat
    with (String.length x - k)%nat by lia.
  apply substring_app_off.
Qed.

Lemma substring_prefix (x y : string) : substring 0 (String.length x) (x ++ y) = x.
Proof.
  induction x as [|c x IH]; [destruct y; reflexivity|].
  rewrite append_String. simpl. rewrite IH. reflexivity.
Qed.

Lemma findAllFrom_head (fuel : nat) (s : string) (i0 i j : nat) (rest : list (nat * nat)) :
  OnlyRegexp.findAllFrom fuel s i0 = (i, j) :: rest -> OnlyRegexp.matchOnlyAt s i = Some j.
Proof.
  revert i0. induction fuel as [|fuel IH]; intros i0 H; simpl in H; [discriminate|].
  destruct (Nat.ltb (String.length s) i0); [discriminate|].
  destruct (OnlyRegexp.matchOnlyAt s i0) as [j0|] eqn:Em.
  - injection H as -> -> _. exact Em.
  - exact (IH _ H).
Qed.

(** What a match of the only-phrase at [i] covers: "only " and one of the
    alternatives. *)
Lemma matchOnlyAt_word (s : string) (i j : nat) :
  OnlyRegexp.matchOnlyAt s i = Some j ->
  exists w, In w OnlyRegexp.onlyWords /\ slice s i j = ("only " ++ w)%string.
Proof.
  unfold OnlyRegexp.matchOnlyAt.
  destruct (OnlyRegexp.boundaryAt s i && HasPrefix (sliceFrom s i) "only ")%bool eqn:Ho;
    [|discriminate].
  apply andb_true_iff in Ho. destruct Ho as [_ Ho].
  assert (Hw : forall w, HasPrefix (sliceFrom s (i + 5)) w = true ->
                 slice s i (i + 5 + String.length w) = ("only " ++ w)%string).
  { intros w Hw. unfold HasPrefix in Ho, Hw.
    destruct (prefix_app_ex _ _ Ho) as [r Hr].
    destruct (Nat.le_gt_cases i (String.length s)) as [Hle|Hgt].
    2:{ unfold sliceFrom in Hr. rewrite substring_past in Hr by lia. discriminate. }
    destruct (sliceFrom_split s i Hle) as [u [Hu Hs]].
    assert (Hs' : s = (u ++ "only " ++ r)%string) by (rewrite Hs at 1; rewrite Hr; reflexivity).
    clear Hs Hr Ho. subst i.
    assert (Hsl : sliceFrom s (String.length u + 5) = r).
    { rewrite Hs', sliceFrom_app.
      change 5%nat with (String.length "only " + 0)%nat. rewrite sliceFrom_app.
      unfold sliceFrom. rewrite Nat.sub_0_r. apply substring_full. }
    rewrite Hsl in Hw. destruct (prefix_app_ex _ _ Hw) as [r' ->].
    unfold slice. rewrite Hs'.
    replace (String.length u + 5 + String.length w - String.length u)%nat
      with (String.length ("only " ++ w)) by (rewrite length_append; simpl; lia).
    rewrite <- (Nat.add_0_r (String.length u)) at 1. rewrite substring_app_off.
    change ("only " ++ w ++ r')%string with (("only " ++ w) ++ r')%string.
    apply substring_prefix. }
  unfold OnlyRegexp.onlyWords.
  repeat match goal with
  | |- (if (HasPrefix _ ?w && ?b)%bool then _ else _) = _ -> _ =>
      let E := fresh "E" in destruct (HasPrefix (sliceFrom s (i + 5)) w && b)%bool eqn:E;
      [ intros Hj; injection Hj as <-; apply andb_true_iff in E; destruct E as [E _];
        exists w; split; [simpl; repeat (first [left; reflexivity | right]) | apply (Hw _ E)]
      | ]
  end.
  discriminate.
Qed.

Lemma strip_select_parameters (ps : list QParameter) (q : QParameter) :
  NodesToParameters (MapField (ParametersToNodes ps) FieldSelect (fun _ _ _ => None) ++ [NParameter q]) =
  List.filter (fun p => negb (String.eqb (Field p) FieldSelect)) ps ++ [q].
Proof.
  induction ps as [|p ps IH]; [reflexivity|]. simpl.
  destruct (String.eqb (Field p) FieldSelect); simpl; [exact IH|]. rewrite IH. reflexivity.
Qed.

(** The clause that [OnlySelect] builds keeps the parameters of the input
    that are not [select:], in order, and appends one [select:] parameter.
    Its value is empty when the printed pattern has no only-phrase;
    otherwise the first phrase is "only " followed by one of the
    alternatives of the regexp, and the value is one of the kinds repo,
    file, path, content, symbol that this alternative starts with. *)
Theorem only_select_clause (b : Basic) :
  let s := StringHuman [BPattern b] in
  exists g v,
    OpportunisticGo.OnlySelect b = Some g /\
    Parameters g = List.filter (fun p => negb (String.eqb (Field p) FieldSelect)) (Parameters b)
                   ++ [param FieldSelect v] /\
    (OnlyRegexp.FindAllStringIndex s = [] -> v = EmptyString) /\
    (forall i j rest, OnlyRegexp.FindAllStringIndex s = (i, j) :: rest ->
       exists w, In w OnlyRegexp.onlyWords /\ slice s i j = ("only " ++ w)%string /\
                 In v OnlyRegexp.kindWords /\ HasPrefix w v = true).
Proof.
  cbv zeta. unfold OpportunisticGo.OnlySelect.
  destruct (Nat.eqb (length (OnlyRegexp.Split (StringHuman [BPattern b]))) 0) eqn:E0.
  - exfalso. apply (OnlySelect_never_nil b). unfold OpportunisticGo.OnlySelect.
    rewrite E0. reflexivity.
  - eexists _, (OnlyRegexp.FindKind (OnlyRegexp.FindString (StringHuman [BPattern b]))).
    split; [reflexivity|]. split; [simpl; apply strip_select_parameters|].
    unfold OnlyRegexp.FindString. split.
    + intros ->. reflexivity.
    + intros i j rest Hf. rewrite Hf.
      destruct (matchOnlyAt_word _ _ _ (findAllFrom_head _ _ _ _ _ _ Hf)) as [w [Hw Hsl]].
      exists w. split; [exact Hw|]. split; [exact Hsl|]. rewrite Hsl.
      unfold OnlyRegexp.onlyWords in Hw.
      repeat (destruct Hw as [<-|Hw]; [vm_compute; split; [tauto|reflexivity]|]).
      destruct Hw.
Qed.

(* ------------------------------------------------------------------ *)
(** ** Errors of the opportunistic job compiler *)

Lemma mapM_nested {A B} (g : A -> outcome B) (BB : A -> list A) (plan : list A) :
  (css <-- mapM (fun q => mapM g (BB q)) plan ;; Returns (concat css)) =
  mapM g (flat_map BB plan).
Proof.
  induction plan as [|q plan IH]; [reflexivity|]. simpl. rewrite mapM_app.
  destruct (mapM g (BB q)) as [bs|m]; [|reflexivity]. simpl. rewrite <- IH.
  destruct (mapM (fun q => mapM g (BB q)) plan); reflexivity.
Qed.

Lemma compilePlan_flat `{E : SearchEnv} (BB : Basic -> list Basic)
      (inputs : SearchInputs) (plan : list Basic) :
  compilePlan BB inputs plan =
  (cs <-- mapM (compileClause inputs) (flat_map BB plan) ;; Returns (NewOrJob cs)).
Proof.
  unfold compilePlan. rewrite <- mapM_nested.
  destruct (mapM _ plan); reflexivity.
Qed.

Lemma mapM_panics {A B} (f : A -> outcome B) (l : list A) (msg : string) :
  mapM f l = Panics msg <->
  exists pre a post, l = pre ++ a :: post /\
    Forall (fun a' => exists b, f a' = Returns b) pre /\ f a = Panics msg.
Proof.
  induction l as [|a l IH]; simpl.
  - split; [discriminate|]. intros (pre & a & post & H & _). destruct pre; discriminate.
  - destruct (f a) as [b|m] eqn:Ef; simpl.
    + split.
      * destruct (mapM f l) as [bs|m] eqn:Em; simpl; [discriminate|].
        intros H. injection H as ->. destruct (proj1 IH eq_refl) as (pre & a' & post & -> & Hpre & Ha).
        exists (a :: pre), a', post. split; [reflexivity|]. split; [|exact Ha].
        constructor; [exists b; exact Ef|exact Hpre].
      * intros (pre & a' & post & Hl & Hpre & Ha).
        destruct pre as [|a0 pre]; simpl in Hl; injection Hl as <- Hl.
        -- congruence.
        -- inversion Hpre; subst.
           assert (Hm : mapM f (pre ++ a' :: post) = Panics msg).
           { apply IH. exists pre, a', post. auto. }
           rewrite Hm. reflexivity.
    + split.
      * intros H. injection H as ->. exists [], a, l. auto.
      * intros (pre & a' & post & Hl & Hpre & Ha).
        destruct pre as [|a0 pre]; simpl in Hl; injection Hl as <- Hl.
        -- congruence.
        -- inversion Hpre as [|? ? [b' Hb'] _]; subst. congruence.
Qed.

Lemma mapM_returns {A B} (f : A -> outcome B) (l : list A) :
  (exists bs, mapM f l = Returns bs) <-> Forall (fun a => exists b, f a = Returns b) l.
Proof.
  induction l as [|a l IH]; simpl.
  - split; [constructor|]. intros _. exists []. reflexivity.
  - split.
    + intros [bs H]. destruct (f a) as [b|m] eqn:Ef; simpl in H; [|discriminate].
      destruct (mapM f l) as [bs'|m] eqn:Em; simpl in H; [|discriminate].
      constructor; [exists b; exact Ef|]. apply IH. exists bs'. reflexivity.
    + intros Hf. inversion Hf as [|? ? [b Hb] Hl]; subst.
      destruct (proj2 IH Hl) as [bs Hbs]. rewrite Hb. simpl. rewrite Hbs. simpl.
      eexists. reflexivity.
Qed.

(** [NewOpportunisticJob] (both revisions) returns a job exactly when every
    clause that [BuildBasic] generates from the plan compiles; otherwise it
    panics with the message of the first clause, in plan order, whose
    [ToEvaluateJob] or optimization pass fails. *)
Theorem opportunistic_job_errors `{E : SearchEnv} (BB : Basic -> list Basic)
        (inputs : SearchInputs) (plan : list Basic) :
  ((exists j, compilePlan BB inputs plan = Returns j) <->
   Forall (fun b => exists c, compileClause inputs b = Returns c) (flat_map BB plan)) /\
  (forall msg, compilePlan BB inputs plan = Panics msg <->
   exists pre b post, flat_map BB plan = pre ++ b :: post /\
     Forall (fun b' => exists c, compileClause inputs b' = Returns c) pre /\
     compileClause inputs b = Panics msg /\
     (msg = "generated an invalid basic query D:" \/
      msg = "optimization pass on generated query failed D:")).
Proof.
  rewrite compilePlan_flat. split.
  - rewrite <- mapM_returns. split.
    + intros [j H]. destruct (mapM _ _) as [cs|m]; simpl in H; [|discriminate]. eauto.
    + intros [cs H]. rewrite H. simpl. eauto.
  - intros msg.
    assert (Hmsg : forall b, compileClause inputs b = Panics msg ->
              msg = "generated an invalid basic query D:" \/
              msg = "optimization pass on generated query failed D:").
    { intros b. unfold compileClause.
      destruct (ToEvaluateJob inputs b); [|intros H; injection H as <-; auto].
      destruct (OptimizationPass _ _ _); [discriminate|intros H; injection H as <-; auto]. }
    split.
    + intros H. destruct (mapM _ _) as [cs|m] eqn:Hm; simpl in H; [discriminate|].
      injection H as ->. apply mapM_panics in Hm.
      destruct Hm as (pre & b & post & Hl & Hpre & Hb).
      exists pre, b, post. repeat split; auto. exact (Hmsg b Hb).
    + intros (pre & b & post & Hl & Hpre & Hb & _).
      assert (Hm : mapM (compileClause inputs) (flat_map BB plan) = Panics msg).
      { apply mapM_panics. exists pre, b, post. auto. }
      rewrite Hm. reflexivity.
Qed.

Lemma length_flat_map_const {A B} (BB : A -> list B) (k : nat) (plan : list A) :
  (forall a, length (BB a) = k) -> length (flat_map BB plan) = (k * length plan)%nat.
Proof.
  intros Hk. induction plan as [|a plan IH]; simpl; [lia|].
  rewrite length_app, Hk, IH. lia.
Qed.

(** The OR node of [NewOpportunisticJob] has two children per plan clause
    in the later revision (the clause and its unordered-terms clause) and
    one per plan clause in opportunistic.go (its only-select clause). *)
Theorem opportunistic_children_count `{E : SearchEnv} (inputs : SearchInputs)
        (plan : list Basic) (j : Job) :
  (Part001.NewOpportunisticJob inputs plan = Returns j ->
   exists children, j = NewOrJob children /\ length children = (2 * length plan)%nat) /\
  (OpportunisticGo.NewOpportunisticJob inputs plan = Returns j ->
   exists children, j = NewOrJob children /\ length children = length plan).
Proof.
  split; intros H; destruct (compilePlan_shape _ _ _ _ H) as [children [-> Hc]];
    exists children; split; try reflexivity;
    rewrite <- (Forall2_length _ _ _ Hc).
  - apply length_flat_map_const. intros b. reflexivity.
  - rewrite (length_flat_map_const _ 1); [lia|]. intros b.
    unfold OpportunisticGo.BuildBasic. destruct (OpportunisticGo.OnlySelect b) eqn:Eb; [reflexivity|].
    exfalso. exact (OnlySelect_never_nil b Eb).
Qed.

Lemma opportunistic_children_count_witness :
  exists j, Part001.NewOpportunisticJob (E := demoEnv) tt [plainClause] = Returns j /\
    exists children, j = NewOrJob children /\ length children = (2 * 1)%nat.
Proof.
  eexists. split; [vm_compute; reflexivity|].
  apply (proj1 (opportunistic_children_count (E := demoEnv) tt [plainClause] _)).
  vm_compute. reflexivity.
Defined.

(* ------------------------------------------------------------------ *)
(** ** The unordered-terms rule applied twice *)

Lemma Split_no_sep_elems (v : string) (c : ascii) (p : string) :
  In p (GoStrings.Split v c) -> CommitSelect.containsChar c p = false.
Proof.
  revert p. induction v as [|a r IH]; intros p Hp; simpl in Hp.
  - destruct Hp as [<-|[]]. reflexivity.
  - destruct (Ascii.eqb a c) eqn:E.
    + destruct Hp as [<-|Hp]; [reflexivity|]. exact (IH p Hp).
    + destruct (GoStrings.Split r c) as [|h t] eqn:Es; [exfalso; exact (Split_not_nil r c Es)|].
      destruct Hp as [<-|Hp].
      * simpl. rewrite E. apply IH. left. reflexivity.
      * apply IH. right. exact Hp.
Qed.

Lemma visit_patterns_only (ops : list Node) :
  (forall x, In x ops -> exists p, x = NPattern p) ->
  VisitPattern [Some (NOperator And ops Annotation0)] =
  map (fun x => match x with
                | NPattern p => (PatValue p, Negated p, PatAnnotation p)
                | _ => (EmptyString, false, Annotation0)
                end) ops.
Proof.
  intros H. unfold VisitPattern. simpl. rewrite app_nil_r.
  induction ops as [|o ops IH]; [reflexivity|].
  destruct (H o (or_introl eq_refl)) as [p ->]. simpl.
  f_equal. apply IH. intros x Hx. apply H. right. exact Hx.
Qed.

(** The unordered-terms rule is idempotent: run on the clause it produced,
    it produces that clause again. *)
Theorem unordered_patterns_idempotent (b g : Basic) :
  Part001.UnorderedPatterns b = Some g -> Part001.UnorderedPatterns g = Some g.
Proof.
  intros H. unfold Part001.UnorderedPatterns in H.
  match type of H with Some ?x = Some g => assert (Hg : g = x) by congruence end.
  subst g. clear H. unfold Part001.UnorderedPatterns. cbn [Parameters BPattern].
  match goal with |- context [flat_map ?h (VisitPattern [BPattern b])] => set (hh := h) end.
  set (ops := flat_map hh (VisitPattern [BPattern b])).
  assert (Hops : forall x, In x ops ->
            exists p, x = NPattern p /\ hh (PatValue p, Negated p, PatAnnotation p) = [x]).
  { intros x Hx. unfold ops in Hx. apply in_flat_map in Hx.
    destruct Hx as [[[v n] a] [_ Hx]]. unfold hh in Hx. destruct n.
    - destruct Hx as [<-|[]]. eexists. split; reflexivity.
    - apply in_map_iff in Hx. destruct Hx as [p [<- Hp]].
      eexists. split; [reflexivity|]. unfold hh. simpl.
      rewrite (Split_no_sep p " " (Split_no_sep_elems v " " p Hp)). reflexivity. }
  rewrite visit_patterns_only.
  2:{ intros x Hx. destruct (Hops x Hx) as [p [-> _]]. eauto. }
  assert (Hfix : flat_map hh (map (fun x => match x with
                | NPattern p => (PatValue p, Negated p, PatAnnotation p)
                | _ => (EmptyString, false, Annotation0)
                end) ops) = ops).
  { clearbody ops hh. induction ops as [|o os IH]; [reflexivity|].
    destruct (Hops o (or_introl eq_refl)) as [p [-> Hp]]. simpl. rewrite Hp. simpl.
    f_equal. apply IH. intros x Hx. apply Hops. right. exact Hx. }
  rewrite Hfix. reflexivity.
Qed.

Lemma unordered_patterns_idempotent_witness :
  Part001.UnorderedPatterns
    {| Parameters := []; BPattern := Some (NOperator And
         [NPattern (NewPattern "func" [Literal] Range0); NPattern (NewPattern "parse" [Literal] Range0)]
         Annotation0) |} =
  Some {| Parameters := []; BPattern := Some (NOperator And
         [NPattern (NewPattern "func" [Literal] Range0); NPattern (NewPattern "parse" [Literal] Range0)]
         Annotation0) |}.
Proof.
  apply (unordered_patterns_idempotent plainClause). vm_compute. reflexivity.
Defined.

(* ------------------------------------------------------------------ *)
(** ** Merging commit message highlights *)

(** [AppendMatches] on two message matches (no diff preview on [cm]) whose
    previews both carry highlights gives a match whose [ResultCount] is the
    sum of the two; when either match has no message preview, [cm] is left
    as it is; the diff preview, commit and repository of [cm] are never
    changed. *)
Theorem append_matches_counts (cm src : CommitMatch) :
  let merged := CommitSelect.CommitMatch_AppendMatches cm src in
  DiffPreview merged = DiffPreview cm /\ CMCommit merged = CMCommit cm /\
  CMRepo merged = CMRepo cm /\
  ((MessagePreview cm = None \/ MessagePreview src = None) -> merged = cm) /\
  (forall m sm, DiffPreview cm = None -> DiffPreview src = None ->
     MessagePreview cm = Some m -> MessagePreview src = Some sm ->
     MatchedRanges m <> [] -> MatchedRanges sm <> [] ->
     CommitMatch_ResultCount merged = CommitMatch_ResultCount cm + CommitMatch_ResultCount src).
Proof.
  cbv zeta. unfold CommitSelect.CommitMatch_AppendMatches.
  split; [|split; [|split; [|split]]].
  - destruct (MessagePreview cm), (MessagePreview src); reflexivity.
  - destruct (MessagePreview cm), (MessagePreview src); reflexivity.
  - destruct (MessagePreview cm), (MessagePreview src); reflexivity.
  - intros [H|H]; rewrite H; [reflexivity|]. destruct (MessagePreview cm); reflexivity.
  - intros m sm Hd Hds Hm Hsm Hne Hsne. rewrite Hm, Hsm.
    unfold CommitMatch_ResultCount. simpl. rewrite Hd, Hds, Hm, Hsm.
    rewrite length_app, Nat2Z.inj_add.
    destruct (MatchedRanges m) as [|r1 l1]; [congruence|].
    destruct (MatchedRanges sm) as [|r2 l2]; [congruence|].
    simpl length.
    destruct (Z.of_nat (S (length l1)) >? 0) eqn:E1; [|rewrite Z.gtb_ltb, Z.ltb_ge in E1; lia].
    destruct (Z.of_nat (S (length l2)) >? 0) eqn:E2; [|rewrite Z.gtb_ltb, Z.ltb_ge in E2; lia].
    destruct (Z.of_nat (S (length l1)) + Z.of_nat (S (length l2)) >? 0) eqn:E3;
      [|rewrite Z.gtb_ltb, Z.ltb_ge in E3; lia].
    reflexivity.
Qed.
